(** * FileSource: the buffer-filling engine of nes-sources

    A shallow embedding of [nes-sources/src/FileSource.cpp]: the lifecycle
    ([open], [close]), the streaming decompressor ([decompressNextBlock]) and
    the buffer-filling engine ([fillTupleBuffer]), followed by the properties
    the specification states about them.

    Conventions.
    - A C++ method that mutates [this] and may throw is a function from the
      object to an [Outcome] paired with the object as the call leaves it;
      an exception keeps the mutations made before the [throw].
    - Buffer capacities, cursors and byte counts are [size_t] values that
      measure in-memory buffers; they are carried as [nat].  Every
      subtraction of the source is guarded by the comparison that precedes
      it, so truncated subtraction on [nat] and wrapping subtraction on
      [size_t] agree wherever the code reaches them.
    - The zstd library and the file system are not part of the repository;
      they are Section variables. *)

From Stdlib Require Import Ascii String Strings.Byte List Arith ZArith Bool Lia.
Import ListNotations.
Local Open Scope string_scope.
Local Open Scope nat_scope.
Local Open Scope list_scope.

(** ** Outcomes of a call *)

(** The only exception class [FileSource.cpp] throws from the functions below. *)
Inductive Exception : Type :=
| InvalidConfigParameter (msg : string).

(** The error taxonomy of the specification (section 7). *)
Inductive ErrorKind : Type :=
| ConfigurationError
| IOError
| DecompressionError.

Definition errorKind (e : Exception) : ErrorKind :=
  match e with
  | InvalidConfigParameter _ => ConfigurationError
  end.

Definition what (e : Exception) : string :=
  match e with
  | InvalidConfigParameter msg => msg
  end.

(** [Diverges]: a loop of the source that never exits.  [Undefined]: the
    source dereferences a null codec context. *)
Inductive Outcome (A : Type) : Type :=
| Returns (a : A)
| Throws (e : Exception)
| Diverges
| Undefined.
Arguments Returns {A} a.
Arguments Throws {A} e.
Arguments Diverges {A}.
Arguments Undefined {A}.

(** A call completes when it returns or throws. *)
Definition completes {A : Type} (o : Outcome A) : Prop :=
  match o with
  | Returns _ | Throws _ => True
  | Diverges | Undefined => False
  end.

(** ** std::ifstream *)

(** An input file stream: whether a file is attached, the bytes not yet
    extracted, and whether the stream is no longer [good()] (the code only
    ever sets [eofbit] together with [failbit]). *)
Record ifstream : Type := mkIfstream {
  is_open : bool;
  rest : list byte;
  failbit : bool
}.

(** A default-constructed stream. *)
Definition ifstream_default : ifstream := mkIfstream false [] false.

(** A stream whose constructor could not open its file. *)
Definition ifstream_unopened : ifstream := mkIfstream false [] true.

(** [read(buf, n)] followed by [gcount()]: on a stream that is not good
    nothing is extracted; otherwise up to [n] bytes are extracted and a short
    read sets [eofbit | failbit].  The extracted bytes are returned; [gcount]
    is their number. *)
Definition ifstream_read (f : ifstream) (n : nat) : list byte * ifstream :=
  if failbit f then ([], f)
  else
    let got := firstn n (rest f) in
    (got, mkIfstream (is_open f) (skipn n (rest f)) (length got <? n)).

(** [close()]: detaches the file; closing a stream with no file attached
    sets [failbit]. *)
Definition ifstream_close (f : ifstream) : ifstream :=
  if is_open f then mkIfstream false [] (failbit f)
  else mkIfstream false [] true.

(** ** Buffers *)

(** [memcpy(buf + off, bytes, |bytes|)] on a buffer held as a list. *)
Definition write_at (off : nat) (bytes buf : list byte) : list byte :=
  firstn off buf ++ bytes ++ skipn (off + length bytes) buf.

(** [std::vector<char>::resize(n)]. *)
Definition resize (n : nat) (v : list byte) : list byte :=
  firstn n v ++ repeat x00 (n - length v).

(** The destination buffer the caller supplies: its available memory area;
    [getBufferSize] is the size of that area. *)
Record TupleBuffer : Type := mkTupleBuffer {
  memoryArea : list byte
}.

Definition getBufferSize (b : TupleBuffer) : nat := length (memoryArea b).

(** [Source::FillTupleBufferResult]. *)
Inductive FillTupleBufferResult : Type :=
| eos
| withBytes (n : nat).

Definition numBytes (r : FillTupleBufferResult) : nat :=
  match r with
  | eos => 0
  | withBytes n => n
  end.

(** ** The zstd streaming interface *)

(** What one call of [ZSTD_decompressStream] did: an error code with its
    name, or the codec's next state, the bytes it wrote at [output.dst] and
    the number of input bytes it consumed ([input.pos] advances by it). *)
Inductive DStreamResult (DCtx : Type) : Type :=
| ZSTD_error (name : string)
| ZSTD_ok (ctx : DCtx) (produced : list byte) (consumed : nat).
Arguments ZSTD_error {DCtx} name.
Arguments ZSTD_ok {DCtx} ctx produced consumed.

Section FileSource.

(** The codec: its state, one streaming step (given the state, the free
    space [output.size] and the unread input [src + pos .. src + size)),
    the result of allocating a context ([None] is [nullptr]) and the
    recommended staging sizes. *)
Variable DCtx : Type.
Variable ZSTD_decompressStream : DCtx -> nat -> list byte -> DStreamResult DCtx.
Variable ZSTD_createDCtx : option DCtx.
Variable ZSTD_DStreamInSize : nat.
Variable ZSTD_DStreamOutSize : nat.

(** The file system as [open] sees it: [realpath] ([None] is [nullptr]),
    the content of a file that can be opened for reading, and the text
    [getErrorMessageFromERRNO] gives when the open has failed. *)
Variable realpath : string -> option string.
Variable readable : string -> option (list byte).
Variable getErrorMessageFromERRNO : string.

(** ** The object *)

(** Modelled from the spec: [FileSource.hpp] is absent, so the members are
    taken from their uses in [FileSource.cpp]; [totalNumBytesRead], whose
    declaration is missing, is the Byte Counter of the specification, a
    running total that only grows. *)
Record FileSource : Type := mkFileSource {
  filePath : string;
  compressionType : string;
  inputFile : ifstream;
  zstdContext : option DCtx;
  compressedBuffer : list byte;
  decompressedBuffer : list byte;
  decompressedOffset : nat;
  decompressedSize : nat;
  endOfCompressedStream : bool;
  totalNumBytesRead : nat
}.

Definition set_inputFile (v : ifstream) (s : FileSource) : FileSource :=
  mkFileSource (filePath s) (compressionType s) v (zstdContext s)
    (compressedBuffer s) (decompressedBuffer s) (decompressedOffset s)
    (decompressedSize s) (endOfCompressedStream s) (totalNumBytesRead s).

Definition set_zstdContext (v : option DCtx) (s : FileSource) : FileSource :=
  mkFileSource (filePath s) (compressionType s) (inputFile s) v
    (compressedBuffer s) (decompressedBuffer s) (decompressedOffset s)
    (decompressedSize s) (endOfCompressedStream s) (totalNumBytesRead s).

Definition set_compressedBuffer (v : list byte) (s : FileSource) : FileSource :=
  mkFileSource (filePath s) (compressionType s) (inputFile s) (zstdContext s)
    v (decompressedBuffer s) (decompressedOffset s)
    (decompressedSize s) (endOfCompressedStream s) (totalNumBytesRead s).

Definition set_decompressedBuffer (v : list byte) (s : FileSource) : FileSource :=
  mkFileSource (filePath s) (compressionType s) (inputFile s) (zstdContext s)
    (compressedBuffer s) v (decompressedOffset s)
    (decompressedSize s) (endOfCompressedStream s) (totalNumBytesRead s).

Definition set_decompressedOffset (v : nat) (s : FileSource) : FileSource :=
  mkFileSource (filePath s) (compressionType s) (inputFile s) (zstdContext s)
    (compressedBuffer s) (decompressedBuffer s) v
    (decompressedSize s) (endOfCompressedStream s) (totalNumBytesRead s).

Definition set_decompressedSize (v : nat) (s : FileSource) : FileSource :=
  mkFileSource (filePath s) (compressionType s) (inputFile s) (zstdContext s)
    (compressedBuffer s) (decompressedBuffer s) (decompressedOffset s)
    v (endOfCompressedStream s) (totalNumBytesRead s).

Definition set_endOfCompressedStream (v : bool) (s : FileSource) : FileSource :=
  mkFileSource (filePath s) (compressionType s) (inputFile s) (zstdContext s)
    (compressedBuffer s) (decompressedBuffer s) (decompressedOffset s)
    (decompressedSize s) v (totalNumBytesRead s).

Definition set_totalNumBytesRead (v : nat) (s : FileSource) : FileSource :=
  mkFileSource (filePath s) (compressionType s) (inputFile s) (zstdContext s)
    (compressedBuffer s) (decompressedBuffer s) (decompressedOffset s)
    (decompressedSize s) (endOfCompressedStream s) v.

(** The constructor: path and compression come from the descriptor, the
    other members start empty. *)
Definition FileSource_new (path compression : string) : FileSource :=
  mkFileSource path compression ifstream_default None [] [] 0 0 false 0.

(** ** open / close *)

(** [std::ifstream(realCSVPath.get(), std::ios::binary)]: a null path or a
    file that cannot be opened gives a stream with [failbit] set. *)
Definition ifstream_ctor (path : option string) : ifstream :=
  match path with
  | None => ifstream_unopened
  | Some p =>
      match readable p with
      | Some content => mkIfstream true content false
      | None => ifstream_unopened
      end
  end.

Definition open (s : FileSource) : Outcome unit * FileSource :=
  let realCSVPath := realpath (filePath s) in
  let s := set_inputFile (ifstream_ctor realCSVPath) s in
  if failbit (inputFile s) then
    (Throws (InvalidConfigParameter
               ("Could not determine absolute pathname: " ++ filePath s
                ++ " - " ++ getErrorMessageFromERRNO)%string), s)
  else if String.eqb (compressionType s) "zstd" then
    let s := set_zstdContext ZSTD_createDCtx s in
    match zstdContext s with
    | None =>
        (Throws (InvalidConfigParameter
                   "Failed to create ZSTD decompression context"), s)
    | Some _ =>
        let s := set_compressedBuffer
                   (resize ZSTD_DStreamInSize (compressedBuffer s)) s in
        let s := set_decompressedBuffer
                   (resize ZSTD_DStreamOutSize (decompressedBuffer s)) s in
        let s := set_decompressedOffset 0 s in
        let s := set_decompressedSize 0 s in
        let s := set_endOfCompressedStream false s in
        (Returns tt, s)
    end
  else if negb (String.eqb (compressionType s) "none")
          && negb (String.eqb (compressionType s) "") then
    (Throws (InvalidConfigParameter
               ("Unsupported compression type: " ++ compressionType s)%string), s)
  else (Returns tt, s).

Definition close (s : FileSource) : FileSource :=
  let s := set_inputFile (ifstream_close (inputFile s)) s in
  match zstdContext s with
  | Some _ => set_zstdContext None s
  | None => s
  end.

(** ** decompressNextBlock *)

(** The loop [while (input.pos < input.size)]; [src] is the input chunk,
    [pos] is [input.pos].  [fuel] bounds the iterations.  On a codec error
    the object is left as it was before the failing step: what the codec
    did to its context and to the output area before failing is not
    observed by any caller, the session being over. *)
Fixpoint decompressLoop (fuel : nat) (src : list byte) (pos : nat)
         (s : FileSource) : Outcome unit * FileSource :=
  match fuel with
  | 0 => (Diverges, s)
  | S fuel' =>
      if pos <? length src then
        match zstdContext s with
        | None => (Undefined, s)
        | Some ctx =>
            let space := length (decompressedBuffer s) - decompressedSize s in
            match ZSTD_decompressStream ctx space (skipn pos src) with
            | ZSTD_error name =>
                (Throws (InvalidConfigParameter
                           ("ZSTD decompression error: " ++ name)%string), s)
            | ZSTD_ok ctx' produced consumed =>
                let s := set_zstdContext (Some ctx') s in
                let s := set_decompressedBuffer
                           (write_at (decompressedSize s) produced
                              (decompressedBuffer s)) s in
                let s := set_decompressedSize
                           (decompressedSize s + length produced) s in
                if length (decompressedBuffer s) <=? decompressedSize s
                then (Returns tt, s)
                else decompressLoop fuel' src (pos + consumed) s
            end
        end
      else (Returns tt, s)
  end.

(** When the codec makes progress, every iteration but the last shrinks
    unread input plus free output space, so this many iterations suffice
    (lemma [decompressLoop_completes]). *)
Definition decompressFuel (src : list byte) (s : FileSource) : nat :=
  length src + length (decompressedBuffer s) + 1.

Definition decompressNextBlock (s : FileSource) : Outcome bool * FileSource :=
  if endOfCompressedStream s then (Returns false, s)
  else
    let '(got, f) := ifstream_read (inputFile s) (length (compressedBuffer s)) in
    let s := set_inputFile f s in
    let s := set_compressedBuffer (write_at 0 got (compressedBuffer s)) s in
    let compressedBytesRead := length got in
    if compressedBytesRead =? 0 then
      (Returns false, set_endOfCompressedStream true s)
    else
      let src := firstn compressedBytesRead (compressedBuffer s) in
      let s := set_decompressedSize 0 s in
      match decompressLoop (decompressFuel src s) src 0 s with
      | (Returns _, s) =>
          let s := set_decompressedOffset 0 s in
          (Returns (0 <? decompressedSize s), s)
      | (Throws e, s) => (Throws e, s)
      | (Diverges, s) => (Diverges, s)
      | (Undefined, s) => (Undefined, s)
      end.

(** ** fillTupleBuffer *)

(** The loop [while (totalBytesWritten < bufferSize)] of the zstd branch;
    [dest] is the destination's memory, [total] is [totalBytesWritten]. *)
Fixpoint fillLoop (fuel : nat) (bufferSize : nat) (s : FileSource)
         (dest : list byte) (total : nat)
  : Outcome nat * FileSource * list byte :=
  match fuel with
  | 0 => (Diverges, s, dest)
  | S fuel' =>
      if total <? bufferSize then
        if decompressedOffset s <? decompressedSize s then
          let availableDecompressed := decompressedSize s - decompressedOffset s in
          let spaceInBuffer := bufferSize - total in
          let bytesToCopy := Nat.min availableDecompressed spaceInBuffer in
          let dest := write_at total
                        (firstn bytesToCopy
                           (skipn (decompressedOffset s) (decompressedBuffer s)))
                        dest in
          let s := set_decompressedOffset (decompressedOffset s + bytesToCopy) s in
          fillLoop fuel' bufferSize s dest (total + bytesToCopy)
        else
          match decompressNextBlock s with
          | (Returns true, s) => fillLoop fuel' bufferSize s dest total
          | (Returns false, s) => (Returns total, s, dest)
          | (Throws e, s) => (Throws e, s, dest)
          | (Diverges, s) => (Diverges, s, dest)
          | (Undefined, s) => (Undefined, s, dest)
          end
      else (Returns total, s, dest)
  end.

(** A copy step writes at least one byte and a refill is followed by a copy
    step, so the loop runs at most [2 * bufferSize + 1] times (lemma
    [fillLoop_completes]). *)
Definition fillFuel (bufferSize : nat) : nat := 2 * bufferSize + 1.

Definition fillTupleBuffer (s : FileSource) (tupleBuffer : TupleBuffer)
  : Outcome FillTupleBufferResult * FileSource * TupleBuffer :=
  if String.eqb (compressionType s) "zstd" then
    let bufferSize := getBufferSize tupleBuffer in
    match fillLoop (fillFuel bufferSize) bufferSize s (memoryArea tupleBuffer) 0 with
    | (Returns totalBytesWritten, s, dest) =>
        let s := set_totalNumBytesRead (totalNumBytesRead s + totalBytesWritten) s in
        if totalBytesWritten =? 0 then (Returns eos, s, mkTupleBuffer dest)
        else (Returns (withBytes totalBytesWritten), s, mkTupleBuffer dest)
    | (Throws e, s, dest) => (Throws e, s, mkTupleBuffer dest)
    | (Diverges, s, dest) => (Diverges, s, mkTupleBuffer dest)
    | (Undefined, s, dest) => (Undefined, s, mkTupleBuffer dest)
    end
  else
    let '(got, f) := ifstream_read (inputFile s) (getBufferSize tupleBuffer) in
    let dest := write_at 0 got (memoryArea tupleBuffer) in
    let s := set_inputFile f s in
    let numBytesRead := length got in
    let s := set_totalNumBytesRead (totalNumBytesRead s + numBytesRead) s in
    if numBytesRead =? 0 then (Returns eos, s, mkTupleBuffer dest)
    else (Returns (withBytes numBytesRead), s, mkTupleBuffer dest).

(** ** The caller *)

(** The execution engine of the specification (section 2, control flow):
    it calls [fillTupleBuffer] with one destination after the other and
    records what each call returned. *)
Fixpoint fillAll (s : FileSource) (bufs : list TupleBuffer)
  : list (Outcome FillTupleBufferResult) * FileSource :=
  match bufs with
  | [] => ([], s)
  | b :: bufs' =>
      let '(o, s', _) := fillTupleBuffer s b in
      let '(os, s'') := fillAll s' bufs' in
      (o :: os, s'')
  end.

(** The bytes a call delivered: the first [n] bytes of the destination
    after a [withBytes n], nothing after an [eos]. *)
Definition delivered (r : FillTupleBufferResult) (b : TupleBuffer) : list byte :=
  firstn (numBytes r) (memoryArea b).

(** Draining: the caller hands in fresh destinations of capacity [k] and
    stops at the first [eos]; each result is recorded with the bytes it
    delivered.  [fuel] bounds the number of calls. *)
Fixpoint drain (fuel : nat) (k : nat) (s : FileSource)
  : Outcome (list (FillTupleBufferResult * list byte)) * FileSource :=
  match fuel with
  | 0 => (Diverges, s)
  | S fuel' =>
      match fillTupleBuffer s (mkTupleBuffer (repeat x00 k)) with
      | (Returns eos, s', b) => (Returns [(eos, delivered eos b)], s')
      | (Returns (withBytes n), s', b) =>
          match drain fuel' k s' with
          | (Returns rs, s'') =>
              (Returns ((withBytes n, delivered (withBytes n) b) :: rs), s'')
          | other => other
          end
      | (Throws e, s', _) => (Throws e, s')
      | (Diverges, s', _) => (Diverges, s')
      | (Undefined, s', _) => (Undefined, s')
      end
  end.

(** ** Predicates of the statements *)

(** Compressed mode is selected by the compression type alone. *)
Definition zstd_mode (s : FileSource) : Prop := compressionType s = "zstd".

(** What the zstd interface promises about one streaming step: it writes
    no more than [output.size] bytes and consumes no more than the unread
    input, and, given unread input and free output space, it either fails
    or moves at least one of the two positions. *)
Definition codec_bounded : Prop :=
  forall ctx space src ctx' produced consumed,
    ZSTD_decompressStream ctx space src = ZSTD_ok ctx' produced consumed ->
    length produced <= space /\ consumed <= length src.

Definition codec_progress : Prop :=
  forall ctx space src ctx' produced consumed,
    src <> [] -> 0 < space ->
    ZSTD_decompressStream ctx space src = ZSTD_ok ctx' produced consumed ->
    0 < consumed + length produced.

(** The members the decode loop leaves alone. *)
Definition same_outside_decoder (s s' : FileSource) : Prop :=
  filePath s' = filePath s /\
  compressionType s' = compressionType s /\
  inputFile s' = inputFile s /\
  compressedBuffer s' = compressedBuffer s /\
  decompressedOffset s' = decompressedOffset s /\
  endOfCompressedStream s' = endOfCompressedStream s /\
  totalNumBytesRead s' = totalNumBytesRead s /\
  (zstdContext s <> None -> zstdContext s' <> None).

(** The object as [decompressNextBlock] has it when the decode loop starts:
    the chunk [got] is in the input staging buffer, the stream is [f], the
    write cursor is reset. *)
Definition chunk_loaded (got : list byte) (f : ifstream) (s : FileSource) : FileSource :=
  set_decompressedSize 0
    (set_compressedBuffer (write_at 0 got (compressedBuffer s))
       (set_inputFile f s)).

(** The cursor invariant of the decompression state. *)
Definition cursors_ok (s : FileSource) : Prop :=
  decompressedOffset s <= decompressedSize s /\
  decompressedSize s <= length (decompressedBuffer s).

(** A source from which no byte can come any more: the raw stream has
    failed at its end, or the compressed stream is exhausted and the output
    staging buffer is used up. *)
Definition drained (s : FileSource) : Prop :=
  if String.eqb (compressionType s) "zstd"
  then endOfCompressedStream s = true /\
       decompressedSize s <= decompressedOffset s
  else failbit (inputFile s) = true.

(** The sources a zstd session can be in: the one a successful [open]
    leaves, and those reached from it by calls of [decompressNextBlock] and
    [fillTupleBuffer] that return. *)
Inductive reachable : FileSource -> Prop :=
| reach_open (s s' : FileSource) :
    zstd_mode s -> open s = (Returns tt, s') -> reachable s'
| reach_decode (s s' : FileSource) (b : bool) :
    reachable s -> decompressNextBlock s = (Returns b, s') -> reachable s'
| reach_fill (s s' : FileSource) (buf buf' : TupleBuffer) (r : FillTupleBufferResult) :
    reachable s -> fillTupleBuffer s buf = (Returns r, s', buf') -> reachable s'.

(** ** The decoder's output stream *)

(** The decompressed bytes waiting in the output staging buffer: those
    between the read cursor and the write cursor. *)
Definition staged (s : FileSource) : list byte :=
  firstn (decompressedSize s - decompressedOffset s)
    (skipn (decompressedOffset s) (decompressedBuffer s)).

(** What the decoder still has to give once the staging buffer is used up:
    the output of one [decompressNextBlock] after the other, until one of
    them finds the stream exhausted.  [None] when a call does not return or
    [fuel] calls are not enough. *)
Fixpoint upcoming (fuel : nat) (s : FileSource) : option (list byte) :=
  match fuel with
  | 0 => None
  | S fuel' =>
      if endOfCompressedStream s then Some []
      else
        match decompressNextBlock s with
        | (Returns _, s') =>
            if endOfCompressedStream s' then Some []
            else
              match upcoming fuel' s' with
              | Some bs => Some (staged s' ++ bs)
              | None => None
              end
        | _ => None
        end
  end.

(** ** close, with what it releases *)

(** [close] again, this time recording the contexts it hands to
    [ZSTD_freeDCtx]. *)
Definition close_freeing (s : FileSource) : list DCtx * FileSource :=
  let s := set_inputFile (ifstream_close (inputFile s)) s in
  match zstdContext s with
  | Some ctx => ([ctx], set_zstdContext None s)
  | None => ([], s)
  end.

(** [n] calls of [close] in a row, with everything they released. *)
Fixpoint close_times (n : nat) (s : FileSource) : list DCtx * FileSource :=
  match n with
  | 0 => ([], s)
  | S n' =>
      let '(freed, s') := close_freeing s in
      let '(freed', s'') := close_times n' s' in
      (freed ++ freed', s'')
  end.

(** ** The decode pass, in the words of the specification *)

(** What feeding one chunk to the codec gives: the codec's next state with
    the bytes it emitted, or the codec's error; [StillFeeding] when [fuel]
    steps were not enough. *)
Inductive Fed : Type :=
| FedAll (ctx : DCtx) (emitted : list byte)
| CodecError (name : string)
| StillFeeding.

(** This definition follows the specification (section 4.2), not the
    source: the newly read bytes are fed to the codec incrementally; the
    codec consumes input and emits decompressed bytes, which are collected
    in order, until the chunk is consumed or [capacity] bytes were emitted.
    It knows no object, no staging buffer and no cursor; the theorem on
    [decompressNextBlock] compares the source with it. *)
Fixpoint feedCodec (fuel capacity : nat) (ctx : DCtx)
         (unread emitted : list byte) : Fed :=
  match fuel with
  | 0 => StillFeeding
  | S fuel' =>
      match unread with
      | [] => FedAll ctx emitted
      | _ :: _ =>
          match ZSTD_decompressStream ctx (capacity - length emitted) unread with
          | ZSTD_error name => CodecError name
          | ZSTD_ok ctx' produced consumed =>
              if capacity <=? length (emitted ++ produced)
              then FedAll ctx' (emitted ++ produced)
              else feedCodec fuel' capacity ctx' (skipn consumed unread)
                     (emitted ++ produced)
          end
      end
  end.

(** ** Sessions in which a call may fail *)

(** The sources a zstd session can be in when its calls may end in any
    way: the one a successful [open] leaves, and those reached from it by
    calls of [decompressNextBlock] and [fillTupleBuffer], whether they
    return or throw.  A codec that fails may have changed its context and
    the output area before it failed, which [decompressLoop] does not
    record; [session_codec] makes up for it by allowing any context and any
    content of the output area, of the same size, at any point. *)
Inductive session : FileSource -> Prop :=
| session_open (s s' : FileSource) :
    zstd_mode s -> open s = (Returns tt, s') -> session s'
| session_decode (s s' : FileSource) (o : Outcome bool) :
    session s -> decompressNextBlock s = (o, s') -> session s'
| session_fill (s s' : FileSource) (buf buf' : TupleBuffer)
               (o : Outcome FillTupleBufferResult) :
    session s -> fillTupleBuffer s buf = (o, s', buf') -> session s'
| session_codec (s : FileSource) (ctx : DCtx) (area : list byte) :
    session s -> length area = length (decompressedBuffer s) ->
    session (set_decompressedBuffer area (set_zstdContext (Some ctx) s)).

End FileSource.

Arguments mkFileSource {DCtx}.
Arguments filePath {DCtx}.
Arguments compressionType {DCtx}.
Arguments inputFile {DCtx}.
Arguments zstdContext {DCtx}.
Arguments compressedBuffer {DCtx}.
Arguments decompressedBuffer {DCtx}.
Arguments decompressedOffset {DCtx}.
Arguments decompressedSize {DCtx}.
Arguments endOfCompressedStream {DCtx}.
Arguments totalNumBytesRead {DCtx}.
Arguments set_inputFile {DCtx}.
Arguments set_zstdContext {DCtx}.
Arguments set_compressedBuffer {DCtx}.
Arguments set_decompressedBuffer {DCtx}.
Arguments set_decompressedOffset {DCtx}.
Arguments set_decompressedSize {DCtx}.
Arguments set_endOfCompressedStream {DCtx}.
Arguments set_totalNumBytesRead {DCtx}.
Arguments open {DCtx}.
Arguments close {DCtx}.
Arguments decompressLoop {DCtx}.
Arguments decompressFuel {DCtx}.
Arguments decompressNextBlock {DCtx}.
Arguments fillLoop {DCtx}.
Arguments fillTupleBuffer {DCtx}.
Arguments fillAll {DCtx}.
Arguments drain {DCtx}.
Arguments codec_bounded {DCtx}.
Arguments codec_progress {DCtx}.
Arguments zstd_mode {DCtx}.
Arguments cursors_ok {DCtx}.
Arguments drained {DCtx}.
Arguments reachable {DCtx}.
Arguments reach_open {DCtx}.
Arguments reach_decode {DCtx}.
Arguments reach_fill {DCtx}.
Arguments same_outside_decoder {DCtx}.
Arguments chunk_loaded {DCtx}.
Arguments staged {DCtx}.
Arguments upcoming {DCtx}.
Arguments close_freeing {DCtx}.
Arguments close_times {DCtx}.
Arguments FedAll {DCtx}.
Arguments CodecError {DCtx}.
Arguments StillFeeding {DCtx}.
Arguments feedCodec {DCtx}.
Arguments session {DCtx}.
Arguments session_open {DCtx}.
Arguments session_decode {DCtx}.
Arguments session_fill {DCtx}.
Arguments session_codec {DCtx}.

(** ** Chunking *)

(** The content [l] cut into pieces of [k] bytes, the last one possibly
    shorter; [fuel] bounds the number of pieces. *)
Fixpoint chunksOf (fuel k : nat) (l : list byte) : list (list byte) :=
  match fuel with
  | 0 => []
  | S fuel' =>
      match l with
      | [] => []
      | _ :: _ => firstn k l :: chunksOf fuel' k (skipn k l)
      end
  end.

(** What the caller records for a call that delivered the piece [c]. *)
Definition chunk_result (c : list byte) : FillTupleBufferResult * list byte :=
  (withBytes (length c), c).

(** ** A small codec and a small file system, for concrete runs *)

Module Toy.

(** A streaming codec that handles one input byte per call: [x00] is
    framing that carries no payload, [xff] is corrupt input, any other
    byte is a literal that is emitted when the output has room. *)
Definition DCtx : Type := unit.

Definition decompressStream (ctx : DCtx) (space : nat) (src : list byte)
  : DStreamResult DCtx :=
  match src with
  | [] => ZSTD_ok ctx [] 0
  | x00 :: _ => ZSTD_ok ctx [] 1
  | xff :: _ => ZSTD_error "Unknown frame descriptor"
  | b :: _ =>
      match space with
      | 0 => ZSTD_ok ctx [] 0
      | S _ => ZSTD_ok ctx [b] 1
      end
  end.

(** A file system with the one file [/data/in.bin] of content [content]. *)
Definition realpath (p : string) : option string :=
  if String.eqb p "in.bin" then Some "/data/in.bin" else None.

Definition readable (content : list byte) (p : string) : option (list byte) :=
  if String.eqb p "/data/in.bin" then Some content else None.

Definition errno_text : string := "No such file or directory".

Definition open (inSize outSize : nat) (content : list byte)
  : FileSource DCtx -> Outcome unit * FileSource DCtx :=
  open (Some tt) inSize outSize realpath (readable content) errno_text.

Definition fillTupleBuffer := fillTupleBuffer decompressStream.
Definition decompressNextBlock := decompressNextBlock decompressStream.
Definition drain := drain decompressStream.
Definition fillAll := fillAll decompressStream.

(** A destination of capacity [k]. *)
Definition buffer (k : nat) : TupleBuffer := mkTupleBuffer (repeat x00 k).

Definition bytes (text : string) : list byte := list_byte_of_string text.

Definition HelloWorld : list byte := bytes "HelloWorld".

(** An uncompressed source opened on [content]. *)
Definition raw_source (content : list byte) : FileSource DCtx :=
  snd (open 0 0 content (FileSource_new DCtx "in.bin" "none")).

(** A zstd source opened on [content], with staging buffers of the given
    sizes. *)
Definition zstd_source (inSize outSize : nat) (content : list byte)
  : FileSource DCtx :=
  snd (open inSize outSize content (FileSource_new DCtx "in.bin" "zstd")).

(** The source as a call leaves it. *)
Definition after (s : FileSource DCtx) (b : TupleBuffer) : FileSource DCtx :=
  snd (fst (fillTupleBuffer s b)).

End Toy.

(** ** The systest registrars of FileSource.cpp *)

(** What a registrar call does: it returns, or throws one of the two
    exception classes the registrars use. *)
Inductive Registered (A : Type) : Type :=
| RegisteredAs (a : A)
| RejectedConfig (e : Exception)
| TestException (msg : string).
Arguments RegisteredAs {A} a.
Arguments RejectedConfig {A} e.
Arguments TestException {A} msg.

(** The files a test can write and read back: the content of each file,
    by path, and whether a path can be opened for writing. *)
Record FileSystem : Type := mkFileSystem {
  files : string -> option (list byte);
  creatable : string -> bool
}.

(** [std::ofstream f(path)] on a path that can be opened: the file exists
    and is empty. *)
Definition truncate (path : string) (fs : FileSystem) : FileSystem :=
  mkFileSystem
    (fun p => if String.eqb p path then Some [] else files fs p)
    (creatable fs).

(** [f << text] on the open file [path]. *)
Definition append_to (path : string) (text : list byte) (fs : FileSystem)
  : FileSystem :=
  mkFileSystem
    (fun p =>
       if String.eqb p path
       then Some (match files fs path with Some old => old | None => [] end ++ text)
       else files fs p)
    (creatable fs).

Definition double_quote : string := String "034"%char EmptyString.

Section Registrars.

(** The configuration key of the file path, a constant declared outside
    [FileSource.cpp], and the members of the physical source configuration
    other than [sourceConfig]. *)
Variable SYSTEST_FILE_PATH_PARAMETER : string.
Variable OtherMembers : Type.

(** [sourceConfig]: a map from parameter names to values. *)
Definition SourceConfig : Type := string -> option string.

Definition contains (c : SourceConfig) (key : string) : bool :=
  match c key with
  | Some _ => true
  | None => false
  end.

(** [try_emplace(key, value)] and [emplace(key, value)]: insert unless the
    key is there. *)
Definition try_emplace (key value : string) (c : SourceConfig) : SourceConfig :=
  fun k =>
    if String.eqb k key
    then match c key with
         | Some old => Some old
         | None => Some value
         end
    else c k.

Definition emplace : string -> string -> SourceConfig -> SourceConfig :=
  try_emplace.

Record PhysicalSourceConfig : Type := mkPhysicalSourceConfig {
  sourceConfig : SourceConfig;
  otherMembers : OtherMembers
}.

(** [InlineDataRegistryArguments] and [FileDataRegistryArguments]. *)
Record InlineDataRegistryArguments : Type := mkInlineDataRegistryArguments {
  inlinePhysicalSourceConfig : PhysicalSourceConfig;
  inlineTestFilePath : string;
  tuples : list string
}.

Record FileDataRegistryArguments : Type := mkFileDataRegistryArguments {
  filePhysicalSourceConfig : PhysicalSourceConfig;
  fileTestFilePath : string
}.

(** The loop [for (tuple : tuples) testFile << tuple << "\n"].  The
    source does not look at the state of the stream while it writes; the
    writes are taken to reach the file. *)
Fixpoint write_tuples (path : string) (ts : list string) (fs : FileSystem)
  : FileSystem :=
  match ts with
  | [] => fs
  | tuple :: ts' =>
      let fs := append_to path (list_byte_of_string tuple) fs in
      let fs := append_to path [x0a] fs in
      write_tuples path ts' fs
  end.

Definition RegisterFileInlineData (fs : FileSystem)
           (systestAdaptorArguments : InlineDataRegistryArguments)
  : Registered PhysicalSourceConfig * FileSystem :=
  let config := inlinePhysicalSourceConfig systestAdaptorArguments in
  let testFilePath := inlineTestFilePath systestAdaptorArguments in
  if contains (sourceConfig config) SYSTEST_FILE_PATH_PARAMETER then
    (RejectedConfig
       (InvalidConfigParameter
          "Mock FileSource cannot use given inline data if a 'file_path' is set"),
     fs)
  else
    let config :=
      mkPhysicalSourceConfig
        (try_emplace SYSTEST_FILE_PATH_PARAMETER testFilePath (sourceConfig config))
        (otherMembers config) in
    if creatable fs testFilePath then
      let fs := truncate testFilePath fs in
      let fs := write_tuples testFilePath (tuples systestAdaptorArguments) fs in
      (RegisteredAs config, fs)
    else
      (TestException
         ("Could not open source file " ++ double_quote ++ testFilePath
          ++ double_quote)%string,
       fs).

Definition RegisterFileFileData
           (systestAdaptorArguments : FileDataRegistryArguments)
  : Registered PhysicalSourceConfig :=
  let config := filePhysicalSourceConfig systestAdaptorArguments in
  if contains (sourceConfig config) SYSTEST_FILE_PATH_PARAMETER then
    RejectedConfig
      (InvalidConfigParameter
         "The mock file data source cannot be used if the file_path parameter is already set.")
  else
    RegisteredAs
      (mkPhysicalSourceConfig
         (emplace SYSTEST_FILE_PATH_PARAMETER
            (fileTestFilePath systestAdaptorArguments) (sourceConfig config))
         (otherMembers config)).

(** What the inline tuples look like in the file: each tuple followed by a
    line feed. *)
Definition tuple_lines (ts : list string) : list byte :=
  concat (map (fun tuple => list_byte_of_string tuple ++ [x0a]) ts).

End Registrars.

Arguments sourceConfig {OtherMembers}.
Arguments otherMembers {OtherMembers}.
Arguments mkPhysicalSourceConfig {OtherMembers}.
Arguments inlinePhysicalSourceConfig {OtherMembers}.
Arguments inlineTestFilePath {OtherMembers}.
Arguments tuples {OtherMembers}.
Arguments mkInlineDataRegistryArguments {OtherMembers}.
Arguments filePhysicalSourceConfig {OtherMembers}.
Arguments fileTestFilePath {OtherMembers}.
Arguments mkFileDataRegistryArguments {OtherMembers}.
Arguments RegisterFileInlineData SYSTEST_FILE_PATH_PARAMETER {OtherMembers}.
Arguments RegisterFileFileData SYSTEST_FILE_PATH_PARAMETER {OtherMembers}.

(** ** URLDownloader (nes-common) *)

Module URLDownloader.

(** A parsed URL, as the accessors of [boost::urls::url] give it:
    [port_number] is 0 when the URL names no port; [toString] is the text
    of the URL. *)
Record Url : Type := mkUrl {
  scheme : string;
  host : string;
  port_number : nat;
  path : string;
  query : string;
  toString : string
}.

(** An [httplib] client: plain or TLS, bound to a host and a port. *)
Record Client : Type := mkClient {
  tls : bool;
  clientHost : string;
  clientPort : nat
}.

(** What a request gives: an error, or a response with its status, body
    and headers. *)
Inductive HttpResult : Type :=
| HttpError (error : string)
| HttpResponse (status : Z) (body : list byte) (header : string -> option string).

Inductive Method : Type := GET | HEAD.

(** What a call does to the world, in order. *)
Inductive Effect : Type :=
| Request (method : Method) (client : Client) (timeoutSeconds : Z) (target : string)
| CreateDirectories (directory : string)
| OpenForWriting (file : string)
| WriteBytes (file : string) (bytes : list byte).

Inductive StdException : Type :=
| runtime_error (what : string)
| filesystem_error (what : string).

Inductive Result (A : Type) : Type :=
| Ok (a : A)
| Raise (e : StdException).
Arguments Ok {A} a.
Arguments Raise {A} e.

Record DownloadResult : Type := mkDownloadResult {
  localPath : string;
  bytesDownloaded : nat;
  contentType : option string
}.

(** The default timeouts of the header. *)
Definition downloadTimeoutSeconds : Z := 60%Z.
Definition reachableTimeoutSeconds : Z := 5%Z.

Section Downloader.

(** The network and the file system: what a GET and a HEAD through a
    client give (redirects followed), the parent of a path, whether
    [create_directories] throws (with which text), whether a file opens for
    writing and whether writing it succeeds; and how [fmt] prints an
    [int]. *)
Variable httpGet : Client -> Z -> string -> HttpResult.
Variable httpHead : Client -> Z -> string -> HttpResult.
Variable parent_path : string -> string.
Variable create_directories_error : string -> option string.
Variable opens_for_writing : string -> bool.
Variable write_succeeds : string -> list byte -> bool.
Variable format_int : Z -> string.

Definition downloadToFile (url : Url) (targetPath : string) (timeoutSeconds : Z)
  : Result DownloadResult * list Effect :=
  let client :=
    if String.eqb (scheme url) "https" then
      let port := if Nat.eqb (port_number url) 0 then 443 else port_number url in
      Some (mkClient true (host url) port)
    else if String.eqb (scheme url) "http" then
      let port := if Nat.eqb (port_number url) 0 then 80 else port_number url in
      Some (mkClient false (host url) port)
    else None in
  match client with
  | None =>
      (Raise (runtime_error ("Unsupported URL scheme: " ++ scheme url)%string), [])
  | Some client =>
      let path := path url in
      let path := if String.eqb path "" then "/" else path in
      let path :=
        if negb (String.eqb (query url) "")
        then (path ++ "?" ++ query url)%string else path in
      let trace := [Request GET client timeoutSeconds path] in
      match httpGet client timeoutSeconds path with
      | HttpError error =>
          (Raise (runtime_error
                    ("Failed to download from URL: " ++ toString url
                     ++ " (error: " ++ error ++ ")")%string), trace)
      | HttpResponse status body header =>
          if negb (Z.eqb status 200) then
            (Raise (runtime_error
                      ("HTTP error " ++ format_int status
                       ++ " while downloading from URL: " ++ toString url)%string),
             trace)
          else
            let trace := trace ++ [CreateDirectories (parent_path targetPath)] in
            match create_directories_error (parent_path targetPath) with
            | Some what => (Raise (filesystem_error what), trace)
            | None =>
                let trace := trace ++ [OpenForWriting targetPath] in
                if negb (opens_for_writing targetPath) then
                  (Raise (runtime_error
                            ("Failed to open file for writing: " ++ targetPath)%string),
                   trace)
                else
                  let trace := trace ++ [WriteBytes targetPath body] in
                  if negb (write_succeeds targetPath body) then
                    (Raise (runtime_error
                              ("Failed to write to file: " ++ targetPath)%string),
                     trace)
                  else
                    (Ok (mkDownloadResult targetPath (length body)
                           (header "Content-Type")),
                     trace)
            end
      end
  end.

Definition isReachable (url : Url) (timeoutSeconds : Z) : bool * list Effect :=
  let client :=
    if String.eqb (scheme url) "https" then
      let port := if Nat.eqb (port_number url) 0 then 443 else port_number url in
      Some (mkClient true (host url) port)
    else if String.eqb (scheme url) "http" then
      let port := if Nat.eqb (port_number url) 0 then 80 else port_number url in
      Some (mkClient false (host url) port)
    else None in
  match client with
  | None => (false, [])
  | Some client =>
      let path := path url in
      let path := if String.eqb path "" then "/" else path in
      let path :=
        if negb (String.eqb (query url) "")
        then (path ++ "?" ++ query url)%string else path in
      let trace := [Request HEAD client timeoutSeconds path] in
      match httpHead client timeoutSeconds path with
      | HttpError _ => (false, trace)
      | HttpResponse status _ _ =>
          (Z.leb 200 status && Z.ltb status 400, trace)
      end
  end.

End Downloader.

(** Where a request goes, whatever its method and timeout. *)
Definition destinations (trace : list Effect) : list (Client * string) :=
  flat_map (fun e =>
              match e with
              | Request _ client _ target => [(client, target)]
              | _ => []
              end) trace.

(** What a call did to the file system. *)
Definition file_effects (trace : list Effect) : list Effect :=
  filter (fun e =>
            match e with
            | Request _ _ _ _ => false
            | _ => true
            end) trace.

(** The request target and the port both functions compute from a URL. *)
Definition request_target (url : Url) : string :=
  let p := if String.eqb (path url) "" then "/" else path url in
  if negb (String.eqb (query url) "") then (p ++ "?" ++ query url)%string else p.

Definition default_port (url : Url) (default : nat) : nat :=
  if Nat.eqb (port_number url) 0 then default else port_number url.

(** The client both functions build for a URL: none for a scheme other than
    ["https"] and ["http"]. *)
Definition client_for (url : Url) : option Client :=
  if String.eqb (scheme url) "https"
  then Some (mkClient true (host url) (default_port url 443))
  else if String.eqb (scheme url) "http"
       then Some (mkClient false (host url) (default_port url 80))
       else None.

End URLDownloader.

(** ** A small test directory and a small web, for concrete runs *)

Module Sample.

(** A directory in which every path can be created and no file exists
    yet, a physical source configuration that names no file, and two
    inline tuples. *)
Definition directory : FileSystem :=
  mkFileSystem (fun _ => None) (fun _ => true).

Definition config : PhysicalSourceConfig unit :=
  mkPhysicalSourceConfig (fun _ => None) tt.

Definition inline_data : InlineDataRegistryArguments unit :=
  mkInlineDataRegistryArguments config "/tmp/inline.csv" ["1,2"; "3,4"].

(** A web with the one resource [http://example.org/data.csv]. *)
Definition data_csv : URLDownloader.Url :=
  URLDownloader.mkUrl "http" "example.org" 0 "/data.csv" ""
    "http://example.org/data.csv".

Definition httpGet (client : URLDownloader.Client) (timeoutSeconds : Z)
           (target : string) : URLDownloader.HttpResult :=
  if String.eqb (URLDownloader.clientHost client) "example.org"
     && String.eqb target "/data.csv"
  then URLDownloader.HttpResponse 200 (list_byte_of_string "1,2")
         (fun name =>
            if String.eqb name "Content-Type" then Some "text/csv" else None)
  else URLDownloader.HttpResponse 404 [] (fun _ => None).

Definition parent_path (p : string) : string := "/tmp".

End Sample.

(** * Properties *)

(** ** Lists and streams *)

Lemma write_at_nil (off : nat) (buf : list byte) : write_at off [] buf = buf.
Proof.
  unfold write_at. simpl. rewrite Nat.add_0_r. apply firstn_skipn.
Qed.

Lemma length_write_at (off : nat) (bytes buf : list byte) :
  off + length bytes <= length buf ->
  length (write_at off bytes buf) = length buf.
Proof.
  intros H. unfold write_at.
  rewrite !length_app, length_firstn, length_skipn. lia.
Qed.

Lemma firstn_write_at_0 (bytes buf : list byte) :
  firstn (length bytes) (write_at 0 bytes buf) = bytes.
Proof.
  unfold write_at. simpl.
  rewrite firstn_app, Nat.sub_diag, firstn_all. simpl. apply app_nil_r.
Qed.

Lemma firstn_write_at (off : nat) (bytes buf : list byte) :
  off <= length buf ->
  firstn (off + length bytes) (write_at off bytes buf) = firstn off buf ++ bytes.
Proof.
  intros H. unfold write_at.
  rewrite firstn_app, length_firstn, Nat.min_l by exact H.
  rewrite firstn_firstn.
  replace (Nat.min (off + length bytes) off) with off by lia.
  replace (off + length bytes - off) with (length bytes) by lia.
  rewrite firstn_app, Nat.sub_diag, firstn_all. simpl.
  now rewrite app_nil_r.
Qed.

Lemma ifstream_read_zero (f : ifstream) : ifstream_read f 0 = ([], f).
Proof.
  unfold ifstream_read. destruct f as [o r fl]; simpl. now destruct fl.
Qed.

Lemma ifstream_read_failed (f : ifstream) (n : nat) :
  failbit f = true -> ifstream_read f n = ([], f).
Proof.
  intros H. unfold ifstream_read. now rewrite H.
Qed.

Lemma ifstream_read_good (f : ifstream) (n : nat) :
  failbit f = false ->
  ifstream_read f n =
  (firstn n (rest f),
   mkIfstream (is_open f) (skipn n (rest f)) (length (firstn n (rest f)) <? n)).
Proof.
  intros H. unfold ifstream_read. now rewrite H.
Qed.

Lemma ifstream_read_length (f f' : ifstream) (n : nat) (got : list byte) :
  ifstream_read f n = (got, f') -> length got <= n.
Proof.
  unfold ifstream_read. destruct (failbit f); intros H; inversion H; subst.
  - simpl. lia.
  - rewrite length_firstn. lia.
Qed.

Section Properties.

Variable DCtx : Type.
Variable ZSTD_decompressStream : DCtx -> nat -> list byte -> DStreamResult DCtx.

Variable ZSTD_createDCtx : option DCtx.
Variable ZSTD_DStreamInSize : nat.
Variable ZSTD_DStreamOutSize : nat.
Variable realpath : string -> option string.
Variable readable : string -> option (list byte).
Variable getErrorMessageFromERRNO : string.

Local Abbreviation Source := (FileSource DCtx).
Local Abbreviation decode := (decompressNextBlock ZSTD_decompressStream).
Local Abbreviation fill := (fillTupleBuffer ZSTD_decompressStream).
Local Abbreviation fills := (fillAll ZSTD_decompressStream).
Local Abbreviation drains := (drain ZSTD_decompressStream).
Local Abbreviation reach :=
  (reachable ZSTD_decompressStream ZSTD_createDCtx ZSTD_DStreamInSize
             ZSTD_DStreamOutSize realpath readable getErrorMessageFromERRNO).
Local Abbreviation opens :=
  (open ZSTD_createDCtx ZSTD_DStreamInSize ZSTD_DStreamOutSize
        realpath readable getErrorMessageFromERRNO).

(** *** Record bookkeeping *)

Lemma set_totalNumBytesRead_same (s : Source) :
  set_totalNumBytesRead (totalNumBytesRead s + 0) s = s.
Proof. destruct s; unfold set_totalNumBytesRead; simpl. now rewrite Nat.add_0_r. Qed.

Lemma set_inputFile_same (s : Source) : set_inputFile (inputFile s) s = s.
Proof. now destruct s. Qed.

Lemma mkTupleBuffer_same (b : TupleBuffer) : mkTupleBuffer (memoryArea b) = b.
Proof. now destruct b. Qed.

(** *** The decode loop *)

Lemma decompressLoop_frame (fuel : nat) :
  forall src pos (s s' : Source) o,
    decompressLoop ZSTD_decompressStream fuel src pos s = (o, s') ->
    same_outside_decoder s s'.
Proof.
  induction fuel as [|fuel IH]; intros src pos s s' o H; simpl in H.
  - inversion H; subst. repeat split; auto.
  - destruct (pos <? length src).
    2:{ inversion H; subst. repeat split; auto. }
    destruct (zstdContext s) as [ctx|] eqn:Hctx.
    2:{ inversion H; subst. repeat split; auto. }
    destruct (ZSTD_decompressStream ctx _ _) as [name|ctx' produced consumed].
    { inversion H; subst. repeat split; auto. }
    simpl in H.
    match type of H with
    | (if ?c then _ else _) = _ => destruct c
    end.
    + inversion H; subst. repeat split; simpl; auto. discriminate.
    + apply IH in H. destruct H as (H1 & H2 & H3 & H4 & H5 & H6 & H7 & H8).
      simpl in *. repeat split; auto. intros _. apply H8. discriminate.
Qed.

Lemma decompressLoop_bounds (Hb : codec_bounded ZSTD_decompressStream) (fuel : nat) :
  forall src pos (s s' : Source) o,
    decompressedSize s <= length (decompressedBuffer s) ->
    decompressLoop ZSTD_decompressStream fuel src pos s = (o, s') ->
    decompressedSize s' <= length (decompressedBuffer s') /\
    length (decompressedBuffer s') = length (decompressedBuffer s).
Proof.
  induction fuel as [|fuel IH]; intros src pos s s' o Hle H; simpl in H.
  - inversion H; subst. auto.
  - destruct (pos <? length src).
    2:{ inversion H; subst. auto. }
    destruct (zstdContext s) as [ctx|] eqn:Hctx.
    2:{ inversion H; subst. auto. }
    destruct (ZSTD_decompressStream ctx _ _) as [name|ctx' produced consumed] eqn:Hc.
    { inversion H; subst. auto. }
    apply Hb in Hc. destruct Hc as [Hp _].
    assert (Hlen : length (write_at (decompressedSize s) produced (decompressedBuffer s))
                   = length (decompressedBuffer s))
      by (apply length_write_at; lia).
    simpl in H. rewrite Hlen in H.
    destruct (length (decompressedBuffer s) <=? decompressedSize s + length produced).
    + inversion H; subst. simpl. rewrite Hlen. split; [lia | reflexivity].
    + apply IH in H.
      * simpl in H. rewrite Hlen in H. exact H.
      * simpl. rewrite Hlen. lia.
Qed.

Lemma decompressLoop_completes (Hb : codec_bounded ZSTD_decompressStream)
      (Hp : codec_progress ZSTD_decompressStream)
      (fuel : nat) :
  forall src pos (s : Source),
    zstdContext s <> None ->
    decompressedSize s <= length (decompressedBuffer s) ->
    (length src - pos)
    + (length (decompressedBuffer s) - decompressedSize s) < fuel ->
    completes (fst (decompressLoop ZSTD_decompressStream fuel src pos s)).
Proof.
  induction fuel as [|fuel IH]; intros src pos s Hctx Hle Hfuel; [lia|].
  simpl.
  destruct (pos <? length src) eqn:Hpos; [|exact I].
  apply Nat.ltb_lt in Hpos.
  destruct (zstdContext s) as [ctx|] eqn:Ec; [|congruence].
  destruct (ZSTD_decompressStream ctx _ _) as [name|ctx' produced consumed] eqn:Hc;
    [exact I|].
  pose proof (Hb _ _ _ _ _ _ Hc) as [Hprod Hcons].
  rewrite length_skipn in Hcons.
  assert (Hlen : length (write_at (decompressedSize s) produced (decompressedBuffer s))
                 = length (decompressedBuffer s))
    by (apply length_write_at; lia).
  simpl. rewrite Hlen.
  destruct (length (decompressedBuffer s) <=? decompressedSize s + length produced)
    eqn:Hfull; [exact I|].
  apply Nat.leb_gt in Hfull.
  assert (Hgo : 0 < consumed + length produced).
  { apply (Hp _ _ _ _ _ _) with (3 := Hc); [|lia].
    intros E. apply (f_equal (@length byte)) in E.
    rewrite length_skipn in E. simpl in E. lia. }
  apply IH; simpl; try rewrite Hlen; try discriminate; lia.
Qed.

(** *** decompressNextBlock *)

(** The three ways through [decompressNextBlock]. *)
Lemma decode_cases (s s' : Source) (o : Outcome bool) :
  decode s = (o, s') ->
  (endOfCompressedStream s = true /\ o = Returns false /\ s' = s)
  \/ (endOfCompressedStream s = false /\
      exists f,
        ifstream_read (inputFile s) (length (compressedBuffer s)) = ([], f) /\
        o = Returns false /\
        s' = set_endOfCompressedStream true (set_inputFile f s))
  \/ (endOfCompressedStream s = false /\
      exists got f o1 s1,
        ifstream_read (inputFile s) (length (compressedBuffer s)) = (got, f) /\
        got <> [] /\
        decompressLoop ZSTD_decompressStream
          (decompressFuel
             (firstn (length got) (compressedBuffer (chunk_loaded got f s)))
             (chunk_loaded got f s))
          (firstn (length got) (compressedBuffer (chunk_loaded got f s)))
          0 (chunk_loaded got f s) = (o1, s1) /\
        match o1 with
        | Returns _ =>
            o = Returns (0 <? decompressedSize s1) /\
            s' = set_decompressedOffset 0 s1
        | Throws e => o = Throws e /\ s' = s1
        | Diverges => o = Diverges /\ s' = s1
        | Undefined => o = Undefined /\ s' = s1
        end).
Proof.
  unfold decompressNextBlock. intros H.
  destruct (endOfCompressedStream s) eqn:Heocs.
  { left. inversion H; auto. }
  right.
  destruct (ifstream_read (inputFile s) (length (compressedBuffer s)))
    as [got f] eqn:Hread.
  destruct got as [|b got].
  - left. split; [reflexivity|]. exists f. simpl in H. inversion H; subst.
    repeat split.
  - right. split; [reflexivity|]. exists (b :: got), f.
    change (length (b :: got) =? 0) with false in H. cbv iota in H.
    match type of H with
    | (let (_, _) := ?call in _) = _ => destruct call as [o1 s1] eqn:Hloop
    end.
    exists o1, s1.
    split; [reflexivity|]. split; [discriminate|]. split; [exact Hloop|].
    destruct o1; inversion H; subst; auto.
Qed.

Lemma decode_exhausted (s : Source) :
  endOfCompressedStream s = true -> decode s = (Returns false, s).
Proof.
  intros H. unfold decompressNextBlock. now rewrite H.
Qed.

(** [decompressNextBlock] touches neither the configuration nor the byte
    counter, keeps a codec context once there is one, and raises
    [endOfCompressedStream] but never lowers it. *)
Lemma decode_frame (s s' : Source) (o : Outcome bool) :
  decode s = (o, s') ->
  filePath s' = filePath s /\
  compressionType s' = compressionType s /\
  totalNumBytesRead s' = totalNumBytesRead s /\
  (zstdContext s <> None -> zstdContext s' <> None) /\
  (endOfCompressedStream s = true -> endOfCompressedStream s' = true).
Proof.
  intros H. apply decode_cases in H.
  destruct H
    as [(He & _ & ->) | [(He & f & _ & _ & ->) | (He & got & f & o1 & s1 & _ & _ & Hl & Ho)]].
  - repeat split; auto.
  - repeat split; auto.
  - apply decompressLoop_frame in Hl.
    destruct Hl as (H1 & H2 & H3 & H4 & H5 & H6 & H7 & H8).
    destruct o1; destruct Ho as [_ ->]; simpl; repeat split; auto; congruence.
Qed.

(** After "data available" the cursors are [0 < decompressedSize]. *)
Lemma decode_true (s s' : Source) :
  decode s = (Returns true, s') ->
  decompressedOffset s' = 0 /\ 0 < decompressedSize s' /\
  endOfCompressedStream s' = false.
Proof.
  intros H. apply decode_cases in H.
  destruct H
    as [(_ & Ho & _) | [(_ & f & _ & Ho & _) | (He & got & f & o1 & s1 & _ & _ & Hl & Ho)]];
    try discriminate.
  apply decompressLoop_frame in Hl.
  destruct Hl as (H1 & H2 & H3 & H4 & H5 & H6 & H7 & H8).
  destruct o1; destruct Ho as [Ho ->]; try discriminate.
  inversion Ho as [Hb]. symmetry in Hb. apply Nat.ltb_lt in Hb.
  simpl. repeat split; auto. rewrite H6. exact He.
Qed.

(** After "no data" either the stream is exhausted and the cursors are as
    they were, or a chunk was decoded to nothing. *)
Lemma decode_false (s s' : Source) :
  decode s = (Returns false, s') ->
  (endOfCompressedStream s' = true /\
   decompressedOffset s' = decompressedOffset s /\
   decompressedSize s' = decompressedSize s /\
   decompressedBuffer s' = decompressedBuffer s)
  \/ (endOfCompressedStream s' = false /\
      decompressedOffset s' = 0 /\ decompressedSize s' = 0).
Proof.
  intros H. apply decode_cases in H.
  destruct H
    as [(He & _ & ->) | [(He & f & _ & _ & ->) | (He & got & f & o1 & s1 & _ & _ & Hl & Ho)]].
  - left. auto.
  - left. simpl. auto.
  - right. apply decompressLoop_frame in Hl.
    destruct Hl as (H1 & H2 & H3 & H4 & H5 & H6 & H7 & H8).
    destruct o1; destruct Ho as [Ho ->]; try discriminate.
    inversion Ho as [Hb]. symmetry in Hb. apply Nat.ltb_ge in Hb.
    simpl in *. repeat split; auto; [congruence | lia].
Qed.

Lemma decode_completes (Hb : codec_bounded ZSTD_decompressStream)
      (Hp : codec_progress ZSTD_decompressStream) (s : Source) :
  zstdContext s <> None -> completes (fst (decode s)).
Proof.
  intros Hctx. destruct (decode s) as [o s'] eqn:H. simpl.
  apply decode_cases in H.
  destruct H
    as [(_ & -> & _) | [(_ & f & _ & -> & _) | (He & got & f & o1 & s1 & _ & _ & Hl & Ho)]];
    try exact I.
  pose proof (decompressLoop_completes Hb Hp
                (decompressFuel
                   (firstn (length got) (compressedBuffer (chunk_loaded got f s)))
                   (chunk_loaded got f s))
                (firstn (length got) (compressedBuffer (chunk_loaded got f s)))
                0 (chunk_loaded got f s)) as Hc.
  rewrite Hl in Hc. simpl in Hc.
  assert (Hdone : completes o1).
  { apply Hc; [exact Hctx | simpl; lia | unfold decompressFuel; simpl; lia]. }
  destruct o1; destruct Ho as [-> _]; simpl in *; auto.
Qed.

(** *** The fill loop *)

Local Abbreviation loop := (fillLoop ZSTD_decompressStream).

Lemma fillLoop_frame (fuel : nat) :
  forall bufferSize (s s' : Source) dest dest' total o,
    loop fuel bufferSize s dest total = (o, s', dest') ->
    filePath s' = filePath s /\
    compressionType s' = compressionType s /\
    totalNumBytesRead s' = totalNumBytesRead s /\
    (zstdContext s <> None -> zstdContext s' <> None) /\
    (endOfCompressedStream s = true -> endOfCompressedStream s' = true).
Proof.
  induction fuel as [|fuel IH]; intros bufferSize s s' dest dest' total o H;
    simpl in H.
  - inversion H; subst. repeat split; auto.
  - destruct (total <? bufferSize).
    2:{ inversion H; subst. repeat split; auto. }
    destruct (decompressedOffset s <? decompressedSize s).
    + apply IH in H. simpl in H. exact H.
    + destruct (decode s) as [o1 s1] eqn:Hd.
      apply decode_frame in Hd. destruct Hd as (D1 & D2 & D3 & D4 & D5).
      destruct o1 as [[|]| | |].
      * apply IH in H. destruct H as (H1 & H2 & H3 & H4 & H5).
        repeat split; try congruence; auto.
      * inversion H; subst. repeat split; auto.
      * inversion H; subst. repeat split; auto.
      * inversion H; subst. repeat split; auto.
      * inversion H; subst. repeat split; auto.
Qed.

(** [totalBytesWritten] only grows and never passes [bufferSize]. *)
Lemma fillLoop_total (fuel : nat) :
  forall bufferSize (s s' : Source) dest dest' total t,
    loop fuel bufferSize s dest total = (Returns t, s', dest') ->
    total <= t /\ (total <= bufferSize -> t <= bufferSize).
Proof.
  induction fuel as [|fuel IH]; intros bufferSize s s' dest dest' total t H;
    simpl in H; [discriminate|].
  destruct (total <? bufferSize) eqn:Hlt.
  2:{ inversion H; subst. auto. }
  apply Nat.ltb_lt in Hlt.
  destruct (decompressedOffset s <? decompressedSize s) eqn:Hav.
  - apply IH in H. lia.
  - destruct (decode s) as [[[|]| | |] s1]; try discriminate.
    + apply IH in H. exact H.
    + inversion H; subst. lia.
Qed.

(** The loop cannot use up [fillFuel]: a copy step writes at least one
    byte, and a refill that reports data is followed by a copy step. *)
Lemma fillLoop_completes (Hb : codec_bounded ZSTD_decompressStream)
      (Hp : codec_progress ZSTD_decompressStream) (fuel : nat) :
  forall bufferSize (s : Source) dest total,
    zstdContext s <> None ->
    1 <= fuel ->
    (total < bufferSize ->
     2 * (bufferSize - total)
     + (if decompressedOffset s <? decompressedSize s then 0 else 1) <= fuel) ->
    completes (fst (fst (loop fuel bufferSize s dest total))).
Proof.
  induction fuel as [|fuel IH]; intros bufferSize s dest total Hctx H1 Hfuel;
    [lia|].
  simpl.
  destruct (total <? bufferSize) eqn:Hlt; [|exact I].
  apply Nat.ltb_lt in Hlt. specialize (Hfuel Hlt).
  destruct (decompressedOffset s <? decompressedSize s) eqn:Hav.
  - apply Nat.ltb_lt in Hav.
    apply IH; simpl; [exact Hctx | lia |].
    intros Hlt'.
    destruct (_ <? _); lia.
  - pose proof (decode_completes Hb Hp s Hctx) as Hc.
    destruct (decode s) as [o1 s1] eqn:Hd. simpl in Hc.
    destruct o1 as [[|]| | |]; simpl; auto.
    pose proof (decode_frame _ _ _ Hd) as (_ & _ & _ & Hctx' & _).
    apply decode_true in Hd. destruct Hd as (Hoff & Hsz & _).
    apply IH; [auto | lia |].
    intros _. rewrite Hoff.
    apply Nat.ltb_lt in Hsz. rewrite Hsz. lia.
Qed.

(** One [decompressNextBlock] never leaves more valid bytes than the output
    staging buffer holds, however it ends. *)
Lemma decode_size_bound (Hb : codec_bounded ZSTD_decompressStream) (s s' : Source)
      (o : Outcome bool) :
  decompressedSize s <= length (decompressedBuffer s) ->
  decode s = (o, s') ->
  decompressedSize s' <= length (decompressedBuffer s') /\
  length (decompressedBuffer s') = length (decompressedBuffer s).
Proof.
  intros Hle Hd. apply decode_cases in Hd.
  destruct Hd
    as [(He & _ & ->) | [(He & f & _ & _ & ->) | (He & got & f & o2 & s2 & _ & _ & Hl & Ho2)]].
  - auto.
  - auto.
  - apply (decompressLoop_bounds Hb) in Hl; [|simpl; lia].
    destruct o2; destruct Ho2 as [_ ->]; exact Hl.
Qed.

Lemma decode_cursors (Hb : codec_bounded ZSTD_decompressStream) (s s' : Source) (b : bool) :
  cursors_ok s ->
  decode s = (Returns b, s') ->
  cursors_ok s' /\
  length (decompressedBuffer s') = length (decompressedBuffer s).
Proof.
  intros Hok Hd.
  pose proof (decode_size_bound Hb _ _ _ (proj2 Hok) Hd) as [Hsz Hlen].
  split; [|exact Hlen]. split; [|exact Hsz].
  destruct b.
  - apply decode_true in Hd. lia.
  - apply decode_false in Hd. destruct Hok as [Ho _]. lia.
Qed.

(** The loop keeps the cursor invariant and the staging capacity. *)
Lemma fillLoop_cursors (Hb : codec_bounded ZSTD_decompressStream) (fuel : nat) :
  forall bufferSize (s s' : Source) dest dest' total t,
    cursors_ok s ->
    loop fuel bufferSize s dest total = (Returns t, s', dest') ->
    cursors_ok s' /\
    length (decompressedBuffer s') = length (decompressedBuffer s).
Proof.
  induction fuel as [|fuel IH]; intros bufferSize s s' dest dest' total t Hok H;
    simpl in H; [discriminate|].
  destruct (total <? bufferSize).
  2:{ inversion H; subst. auto. }
  destruct (decompressedOffset s <? decompressedSize s) eqn:Hav.
  - apply Nat.ltb_lt in Hav. apply IH in H.
    + simpl in H. exact H.
    + destruct Hok as [Ho Hs]. split; simpl; lia.
  - destruct (decode s) as [[b| | |] s1] eqn:Hd; try discriminate.
    apply (decode_cursors Hb) in Hd; [|exact Hok]. destruct Hd as [Hok1 Hlen1].
    destruct b.
    + apply IH in H; [|exact Hok1]. destruct H as [H1 H2]. split; congruence.
    + inversion H; subst. auto.
Qed.

(** The loop writes inside the destination: its size does not change. *)
Lemma fillLoop_dest_length (fuel : nat) :
  forall bufferSize (s s' : Source) dest dest' total o,
    length dest = bufferSize ->
    loop fuel bufferSize s dest total = (o, s', dest') ->
    length dest' = bufferSize.
Proof.
  induction fuel as [|fuel IH]; intros bufferSize s s' dest dest' total o Hlen H;
    simpl in H.
  - inversion H; subst. reflexivity.
  - destruct (total <? bufferSize) eqn:Hlt.
    2:{ inversion H; subst. reflexivity. }
    apply Nat.ltb_lt in Hlt.
    destruct (decompressedOffset s <? decompressedSize s).
    + apply IH in H; [exact H|].
      rewrite length_write_at; [exact Hlen|].
      rewrite length_firstn. lia.
    + destruct (decode s) as [[[|]| | |] s1];
        try (inversion H; subst; reflexivity).
      apply IH in H; auto.
Qed.

(** *** fillTupleBuffer, one call *)

Lemma fill_zstd (s : Source) (b : TupleBuffer) :
  zstd_mode s ->
  fill s b =
  match loop (fillFuel (getBufferSize b)) (getBufferSize b) s (memoryArea b) 0 with
  | (Returns t, s', dest) =>
      let s'' := set_totalNumBytesRead (totalNumBytesRead s' + t) s' in
      if t =? 0 then (Returns eos, s'', mkTupleBuffer dest)
      else (Returns (withBytes t), s'', mkTupleBuffer dest)
  | (Throws e, s', dest) => (Throws e, s', mkTupleBuffer dest)
  | (Diverges, s', dest) => (Diverges, s', mkTupleBuffer dest)
  | (Undefined, s', dest) => (Undefined, s', mkTupleBuffer dest)
  end.
Proof.
  intros H. unfold fillTupleBuffer. rewrite H. reflexivity.
Qed.

Lemma fill_raw (s : Source) (b : TupleBuffer) :
  ~ zstd_mode s ->
  fill s b =
  let got := fst (ifstream_read (inputFile s) (getBufferSize b)) in
  let f := snd (ifstream_read (inputFile s) (getBufferSize b)) in
  let s' := set_totalNumBytesRead (totalNumBytesRead s + length got)
              (set_inputFile f s) in
  (Returns (if length got =? 0 then eos else withBytes (length got)),
   s', mkTupleBuffer (write_at 0 got (memoryArea b))).
Proof.
  intros H. unfold fillTupleBuffer.
  apply String.eqb_neq in H. rewrite H.
  destruct (ifstream_read (inputFile s) (getBufferSize b)) as [got f]. simpl.
  now destruct (length got =? 0).
Qed.

(** Every call that returns adds the number of bytes it reports to the byte
    counter, reports at least one byte unless it reports end of stream,
    leaves the size of the destination alone and delivers as many bytes as
    it reports. *)
Lemma fill_returns (s s' : Source) (b b' : TupleBuffer) (r : FillTupleBufferResult) :
  fill s b = (Returns r, s', b') ->
  totalNumBytesRead s' = totalNumBytesRead s + numBytes r /\
  r <> withBytes 0 /\
  numBytes r <= getBufferSize b /\
  getBufferSize b' = getBufferSize b /\
  length (delivered r b') = numBytes r /\
  compressionType s' = compressionType s.
Proof.
  intros H.
  destruct (String.eqb_spec (compressionType s) "zstd") as [Hz|Hz].
  - rewrite (fill_zstd s b Hz) in H.
    destruct (loop _ _ _ _ _) as [[o s1] d1] eqn:Hl.
    pose proof (fillLoop_frame _ _ _ _ _ _ _ _ Hl) as (F1 & F2 & F3 & _).
    pose proof (fillLoop_dest_length _ _ _ _ _ _ _ _ eq_refl Hl) as Hd.
    destruct o as [t| | |]; try discriminate.
    apply fillLoop_total in Hl. destruct Hl as [_ Ht]. specialize (Ht (Nat.le_0_l _)).
    unfold delivered, getBufferSize.
    destruct (t =? 0) eqn:E; inversion H; subst; simpl.
    + apply Nat.eqb_eq in E. subst. simpl.
      repeat split; try congruence; lia.
    + apply Nat.eqb_neq in E.
      rewrite length_firstn.
      unfold getBufferSize in *.
      repeat split; try congruence; try lia.
  - rewrite (fill_raw s b Hz) in H. simpl in H.
    destruct (ifstream_read (inputFile s) (getBufferSize b)) as [got f] eqn:Hr.
    apply ifstream_read_length in Hr. simpl in H.
    assert (Hlen : length (write_at 0 got (memoryArea b)) = getBufferSize b)
      by (apply length_write_at; simpl; exact Hr).
    unfold delivered, getBufferSize.
    destruct (length got =? 0) eqn:E; inversion H; subst; simpl.
    + apply Nat.eqb_eq in E. unfold getBufferSize in *.
      repeat split; try congruence; lia.
    + apply Nat.eqb_neq in E. rewrite firstn_write_at_0.
      unfold getBufferSize in *.
      repeat split; try congruence; lia.
Qed.

(** A call that does not return leaves the byte counter alone. *)
Lemma fill_counter_kept (s s' : Source) (b b' : TupleBuffer)
      (o : Outcome FillTupleBufferResult) :
  fill s b = (o, s', b') ->
  (forall r, o <> Returns r) ->
  totalNumBytesRead s' = totalNumBytesRead s.
Proof.
  intros H Hn.
  destruct (String.eqb_spec (compressionType s) "zstd") as [Hz|Hz].
  - rewrite (fill_zstd s b Hz) in H.
    destruct (loop _ _ _ _ _) as [[o1 s1] d1] eqn:Hl.
    apply fillLoop_frame in Hl. destruct Hl as (_ & _ & F3 & _).
    destruct o1 as [t| | |]; [cbv zeta in H; destruct (t =? 0)| | |];
      inversion H; subst; try exact F3; exfalso; eapply Hn; reflexivity.
  - rewrite (fill_raw s b Hz) in H. cbv zeta in H.
    inversion H; subst. exfalso. eapply Hn; reflexivity.
Qed.

(** However the loop ends, the write cursor stays within the output
    staging buffer. *)
Lemma fillLoop_size_bound (Hb : codec_bounded ZSTD_decompressStream) (fuel : nat) :
  forall bufferSize (s s' : Source) dest dest' total o,
    decompressedSize s <= length (decompressedBuffer s) ->
    loop fuel bufferSize s dest total = (o, s', dest') ->
    decompressedSize s' <= length (decompressedBuffer s') /\
    length (decompressedBuffer s') = length (decompressedBuffer s).
Proof.
  induction fuel as [|fuel IH]; intros bufferSize s s' dest dest' total o Hle H;
    simpl in H.
  - inversion H; subst. auto.
  - destruct (total <? bufferSize).
    2:{ inversion H; subst. auto. }
    destruct (decompressedOffset s <? decompressedSize s).
    + apply IH in H; [exact H | exact Hle].
    + destruct (decode s) as [o1 s1] eqn:Hd.
      apply (decode_size_bound Hb) in Hd; [|exact Hle].
      destruct Hd as [Hle1 Hlen1].
      destruct o1 as [[|]| | |]; try (inversion H; subst; auto; fail).
      apply IH in H; [|exact Hle1]. destruct H as [H1 H2].
      split; [exact H1 | congruence].
Qed.

Lemma fill_size_bound (Hb : codec_bounded ZSTD_decompressStream)
      (s s' : Source) (b b' : TupleBuffer) (o : Outcome FillTupleBufferResult) :
  zstd_mode s ->
  decompressedSize s <= length (decompressedBuffer s) ->
  fill s b = (o, s', b') ->
  decompressedSize s' <= length (decompressedBuffer s') /\
  length (decompressedBuffer s') = length (decompressedBuffer s).
Proof.
  intros Hz Hle H. rewrite (fill_zstd s b Hz) in H.
  destruct (loop _ _ _ _ _) as [[o1 s1] d1] eqn:Hl.
  apply (fillLoop_size_bound Hb) in Hl; [|exact Hle].
  destruct o1 as [t| | |]; [cbv zeta in H; destruct (t =? 0)| | |];
    inversion H; subst; exact Hl.
Qed.

(** In uncompressed mode every call returns. *)
Lemma fill_raw_returns (s : Source) (b : TupleBuffer) :
  ~ zstd_mode s ->
  exists r s' b', fill s b = (Returns r, s', b').
Proof.
  intros Hz. rewrite (fill_raw s b Hz). simpl. eauto.
Qed.

(** In zstd mode, with a codec context and a codec that keeps the promises
    of its interface, every call returns or throws. *)
Lemma fill_completes (Hb : codec_bounded ZSTD_decompressStream)
      (Hp : codec_progress ZSTD_decompressStream)
      (s : Source) (b : TupleBuffer) :
  (zstd_mode s -> zstdContext s <> None) ->
  completes (fst (fst (fill s b))).
Proof.
  intros Hctx.
  destruct (String.eqb_spec (compressionType s) "zstd") as [Hz|Hz].
  - rewrite (fill_zstd s b Hz).
    pose proof (fillLoop_completes Hb Hp (fillFuel (getBufferSize b))
                  (getBufferSize b) s (memoryArea b) 0 (Hctx Hz)) as Hc.
    destruct (loop _ _ _ _ _) as [[o s1] d1]. simpl in Hc.
    assert (Hdone : completes o).
    { apply Hc; unfold fillFuel; [lia|].
      intros _. destruct (_ <? _); lia. }
    destruct o as [t| | |]; simpl in *; auto.
    destruct (t =? 0); exact I.
  - destruct (fill_raw_returns s b Hz) as (r & s' & b' & ->). exact I.
Qed.

(** In zstd mode a result shorter than the destination has one of two
    causes: the compressed stream is exhausted, or the last chunk read
    decoded to no output at all. *)
Lemma fillLoop_short (fuel : nat) :
  forall bufferSize (s s' : Source) dest dest' total t,
    loop fuel bufferSize s dest total = (Returns t, s', dest') ->
    t < bufferSize ->
    endOfCompressedStream s' = true
    \/ (decompressedSize s' = 0 /\ decompressedOffset s' = 0).
Proof.
  induction fuel as [|fuel IH]; intros bufferSize s s' dest dest' total t H Hlt;
    simpl in H; [discriminate|].
  destruct (total <? bufferSize) eqn:Htot.
  2:{ apply Nat.ltb_ge in Htot. inversion H; subst. lia. }
  destruct (decompressedOffset s <? decompressedSize s).
  - exact (IH _ _ _ _ _ _ _ H Hlt).
  - destruct (decode s) as [[[|]| | |] s1] eqn:Hd; try discriminate.
    + exact (IH _ _ _ _ _ _ _ H Hlt).
    + inversion H; subst. apply decode_false in Hd.
      destruct Hd as [(He & _) | (_ & Ho & Hs)]; [left | right]; auto.
Qed.

(** X3 (why a zstd fill is short).  In zstd mode a call that returns fewer
    bytes than the destination holds, or [eos], has ended on a
    [decompressNextBlock] that reported "no data": the compressed stream is
    exhausted, or the last chunk read decoded to no output and both cursors
    are 0. *)
Lemma short_fill_cause (s s' : Source) (b b' : TupleBuffer) (r : FillTupleBufferResult) :
  zstd_mode s ->
  fill s b = (Returns r, s', b') ->
  numBytes r < getBufferSize b ->
  endOfCompressedStream s' = true
  \/ (decompressedSize s' = 0 /\ decompressedOffset s' = 0).
Proof.
  intros Hz H Hlt. rewrite (fill_zstd s b Hz) in H.
  destruct (loop _ _ _ _ _) as [[o s1] d1] eqn:Hl.
  destruct o as [t| | |]; try discriminate.
  assert (E : r = (if t =? 0 then eos else withBytes t) /\
              s' = set_totalNumBytesRead (totalNumBytesRead s1 + t) s1)
    by (cbv zeta in H; destruct (t =? 0); inversion H; auto).
  destruct E as [-> ->].
  assert (Ht : t < getBufferSize b).
  { destruct (t =? 0) eqn:E0; simpl in Hlt; [|exact Hlt].
    apply Nat.eqb_eq in E0. lia. }
  exact (fillLoop_short _ _ _ _ _ _ _ _ Hl Ht).
Qed.

(** *** Draining *)

Lemma concat_chunksOf (fuel k : nat) :
  forall l, 1 <= k -> length l <= fuel -> concat (chunksOf fuel k l) = l.
Proof.
  induction fuel as [|fuel IH]; intros l Hk Hl.
  - destruct l; [reflexivity | simpl in Hl; lia].
  - destruct l as [|x l]; [reflexivity|].
    cbn [chunksOf concat]. rewrite IH; [apply firstn_skipn | exact Hk |].
    rewrite length_skipn. cbn [length] in *. lia.
Qed.

(** Whatever the mode, a drain that returns has counted exactly the bytes it
    delivered, and it stopped at an end of stream. *)
Lemma drain_counts (fuel : nat) :
  forall k (s s' : Source) rs,
    drains fuel k s = (Returns rs, s') ->
    totalNumBytesRead s' = totalNumBytesRead s + length (concat (map snd rs)) /\
    length (concat (map snd rs)) = list_sum (map (fun r => numBytes (fst r)) rs) /\
    exists rs', rs = rs' ++ [(eos, [])] /\ Forall (fun r => fst r <> eos) rs'.
Proof.
  induction fuel as [|fuel IH]; intros k s s' rs H; simpl in H; [discriminate|].
  destruct (fill s _) as [[o s1] b1] eqn:Hf.
  destruct o as [r| | |]; try discriminate.
  pose proof (fill_returns _ _ _ _ _ Hf) as (Hc & _ & _ & _ & Hd & _).
  destruct r as [|n].
  - inversion H; subst. simpl in *.
    repeat split; try lia. exists []. split; [reflexivity | constructor].
  - destruct (drains fuel k s1) as [[rs1| | |] s2] eqn:Hrec; try discriminate.
    inversion H; subst.
    apply IH in Hrec. destruct Hrec as (R1 & R2 & rs' & -> & R3).
    simpl in *. rewrite length_app, Hd.
    repeat split; try lia.
    exists ((withBytes n, delivered (withBytes n) b1) :: rs').
    split; [reflexivity|]. constructor; [discriminate | exact R3].
Qed.

(** Draining an uncompressed source whose stream still holds [C]. *)
Lemma drain_raw (fuel : nat) :
  forall k (s : Source) C,
    1 <= k ->
    ~ zstd_mode s ->
    rest (inputFile s) = C ->
    (failbit (inputFile s) = true -> C = []) ->
    length C < fuel ->
    exists s',
      drains fuel k s
      = (Returns (map chunk_result (chunksOf fuel k C) ++ [(eos, [])]), s') /\
      totalNumBytesRead s' = totalNumBytesRead s + length C /\
      rest (inputFile s') = [] /\
      failbit (inputFile s') = true.
Proof.
  induction fuel as [|fuel IH]; intros k s C Hk Hz Hrest Hfail Hfuel; [lia|].
  cbn [drain]. rewrite (fill_raw s _ Hz). cbv zeta.
  unfold getBufferSize. cbn [memoryArea]. rewrite repeat_length.
  destruct C as [|c C'].
  - assert (Hread : ifstream_read (inputFile s) k
                    = ([], mkIfstream (is_open (inputFile s)) [] true)).
    { unfold ifstream_read. rewrite Hrest.
      destruct (inputFile s) as [o r fl] eqn:Ef. simpl in *. subst r.
      destruct fl; [reflexivity|].
      rewrite firstn_nil, skipn_nil. simpl.
      destruct k; [lia | reflexivity]. }
    rewrite Hread. simpl.
    eexists. split; [reflexivity|]. simpl. repeat split; lia.
  - assert (Hgood : failbit (inputFile s) = false).
    { destruct (failbit (inputFile s)); [|reflexivity].
      specialize (Hfail eq_refl). discriminate. }
    rewrite (ifstream_read_good _ _ Hgood), Hrest. cbn [fst snd].
    set (got := firstn k (c :: C')).
    assert (Hgot : length got = Nat.min k (S (length C')))
      by (unfold got; rewrite length_firstn; reflexivity).
    assert (Hnz : (length got =? 0) = false) by (apply Nat.eqb_neq; lia).
    rewrite Hnz.
    set (s1 := set_totalNumBytesRead _ _).
    destruct (IH k s1 (skipn k (c :: C'))) as (s' & Hd & Ht & Hr & Hf); auto.
    { subst s1. simpl. intros Hlt. apply Nat.ltb_lt in Hlt.
      apply skipn_all2. cbn [length]. lia. }
    { rewrite length_skipn. cbn [length] in *. lia. }
    rewrite Hd. exists s'.
    unfold delivered. cbn [numBytes memoryArea].
    rewrite firstn_write_at_0.
    split; [reflexivity|].
    rewrite Ht. subst s1. cbn [totalNumBytesRead set_totalNumBytesRead].
    rewrite length_skipn. cbn [length] in *. repeat split; auto; lia.
Qed.

(** *** End of stream *)

Lemma fillLoop_zero (fuel bufferSize : nat) (s s' : Source) (dest dest' : list byte) :
  0 < bufferSize ->
  loop fuel bufferSize s dest 0 = (Returns 0, s', dest') ->
  decode s = (Returns false, s') /\
  decompressedSize s <= decompressedOffset s /\ dest' = dest.
Proof.
  intros Hbs H. destruct fuel as [|fuel]; simpl in H; [discriminate|].
  apply Nat.ltb_lt in Hbs. rewrite Hbs in H. apply Nat.ltb_lt in Hbs.
  destruct (decompressedOffset s <? decompressedSize s) eqn:Hav.
  - apply Nat.ltb_lt in Hav. apply fillLoop_total in H. lia.
  - apply Nat.ltb_ge in Hav.
    destruct (decode s) as [[[|]| | |] s1] eqn:Hd; try discriminate.
    + apply decode_true in Hd. destruct Hd as (Hoff & Hsz & _).
      destruct fuel as [|fuel]; simpl in H; [discriminate|].
      apply Nat.ltb_lt in Hbs. rewrite Hbs in H.
      rewrite Hoff in H. apply Nat.ltb_lt in Hsz. rewrite Hsz in H.
      apply Nat.ltb_lt in Hsz, Hbs.
      apply fillLoop_total in H. lia.
    + inversion H; subst. auto.
Qed.

Lemma fill_drained (s : Source) (b : TupleBuffer) :
  drained s -> fill s b = (Returns eos, s, b).
Proof.
  unfold drained. intros Hd.
  destruct (String.eqb_spec (compressionType s) "zstd") as [Hz|Hz].
  - destruct Hd as [He Hc].
    rewrite (fill_zstd s b Hz). unfold fillFuel.
    replace (2 * getBufferSize b + 1) with (S (2 * getBufferSize b)) by lia.
    cbn [fillLoop].
    destruct (0 <? getBufferSize b).
    + apply Nat.ltb_ge in Hc. rewrite Hc, (decode_exhausted s He).
      cbv zeta. cbn [Nat.eqb].
      now rewrite set_totalNumBytesRead_same, mkTupleBuffer_same.
    + cbv zeta. cbn [Nat.eqb].
      now rewrite set_totalNumBytesRead_same, mkTupleBuffer_same.
  - rewrite (fill_raw s b Hz), (ifstream_read_failed _ _ Hd). simpl.
    now rewrite write_at_nil, set_inputFile_same,
      set_totalNumBytesRead_same, mkTupleBuffer_same.
Qed.

Lemma fill_eos_drained (s s' : Source) (b b' : TupleBuffer) :
  1 <= getBufferSize b ->
  fill s b = (Returns eos, s', b') ->
  (zstd_mode s -> endOfCompressedStream s' = true) ->
  drained s'.
Proof.
  intros Hk H He. unfold drained.
  pose proof (fill_returns _ _ _ _ _ H) as (_ & _ & _ & _ & _ & Hct).
  rewrite Hct.
  destruct (String.eqb_spec (compressionType s) "zstd") as [Hz|Hz].
  - specialize (He Hz). rewrite (fill_zstd s b Hz) in H.
    destruct (loop _ _ _ _ _) as [[o s1] d1] eqn:Hl.
    destruct o as [t| | |]; try discriminate.
    destruct (t =? 0) eqn:E; [|discriminate].
    apply Nat.eqb_eq in E. subst t.
    apply fillLoop_zero in Hl; [|lia]. destruct Hl as (Hd & Hc & _).
    inversion H; subst. simpl in *.
    apply decode_false in Hd.
    destruct Hd as [(_ & D2 & D3 & _) | (D1 & _)]; [|congruence].
    split; [exact He | lia].
  - rewrite (fill_raw s b Hz) in H. cbv zeta in H.
    unfold ifstream_read in H.
    destruct (failbit (inputFile s)) eqn:Hf; simpl in H.
    + inversion H; subst. simpl. exact Hf.
    + destruct (length (firstn (getBufferSize b) (rest (inputFile s))) =? 0) eqn:E;
        inversion H; subst. simpl.
      apply Nat.eqb_eq in E. rewrite E. apply Nat.ltb_lt. lia.
Qed.

Lemma fills_drained (s : Source) (bufs : list TupleBuffer) :
  drained s ->
  fills s bufs = (map (fun _ => Returns eos) bufs, s).
Proof.
  intros Hd. induction bufs as [|b bufs IH]; [reflexivity|].
  cbn [fillAll map]. rewrite (fill_drained s b Hd), IH. reflexivity.
Qed.

(** *** open *)

Lemma open_raw (s : Source) (p : string) (C : list byte) :
  realpath (filePath s) = Some p ->
  readable p = Some C ->
  compressionType s = "none" \/ compressionType s = "" ->
  opens s = (Returns tt, set_inputFile (mkIfstream true C false) s).
Proof.
  intros Hp Hr Hc. unfold open, ifstream_ctor. rewrite Hp, Hr.
  destruct Hc as [Hc|Hc]; simpl; rewrite Hc; reflexivity.
Qed.

Lemma open_unreachable_file (s : Source) :
  realpath (filePath s) = None
  \/ (exists p, realpath (filePath s) = Some p /\ readable p = None) ->
  opens s
  = (Throws (InvalidConfigParameter
               ("Could not determine absolute pathname: " ++ filePath s
                ++ " - " ++ getErrorMessageFromERRNO)%string),
     set_inputFile ifstream_unopened s).
Proof.
  intros [Hp | (p & Hp & Hr)]; unfold open, ifstream_ctor; rewrite Hp;
    [|rewrite Hr]; reflexivity.
Qed.

Lemma length_resize (n : nat) (v : list byte) : length (resize n v) = n.
Proof.
  unfold resize. rewrite length_app, length_firstn, repeat_length. lia.
Qed.

(** [close] releases the stream and the codec context, and closing again
    changes nothing but the stream's [failbit]. *)
Lemma close_releases (s : Source) :
  is_open (inputFile (close s)) = false /\ zstdContext (close s) = None.
Proof.
  destruct s as [fp ct [o r fl] [ctx|] cb db off sz e n]; destruct o; split;
    reflexivity.
Qed.

Lemma close_twice (s : Source) :
  close (close s) = set_inputFile (mkIfstream false [] true) (close s).
Proof.
  destruct s as [fp ct [o r fl] [ctx|] cb db off sz e n]; destruct o; reflexivity.
Qed.

(** ** The stated properties *)

(** C1 (uncompressed round trip).  A source in uncompressed mode is opened
    on a file of content [C] and drained with fresh destinations of capacity
    [k >= 1]: the calls return [withBytes] results whose bytes, concatenated
    in order, are exactly [C], followed by exactly one [eos]; the pieces are
    [C] cut every [k] bytes, and the byte counter has grown by [length C]. *)
Theorem uncompressed_round_trip (s : Source) (p : string) (C : list byte) (k : nat) :
  1 <= k ->
  realpath (filePath s) = Some p ->
  readable p = Some C ->
  compressionType s = "none" \/ compressionType s = "" ->
  exists s1 s2 rs,
    opens s = (Returns tt, s1) /\
    drains (S (length C)) k s1 = (Returns (rs ++ [(eos, [])]), s2) /\
    rs = map chunk_result (chunksOf (S (length C)) k C) /\
    Forall (fun r => fst r <> eos) rs /\
    concat (map snd rs) = C /\
    totalNumBytesRead s2 = totalNumBytesRead s + length C.
Proof.
  intros Hk Hp Hr Hc.
  set (s1 := set_inputFile (mkIfstream true C false) s).
  assert (Hz : ~ zstd_mode s1).
  { unfold zstd_mode, s1. simpl. destruct Hc as [-> | ->]; discriminate. }
  destruct (drain_raw (S (length C)) k s1 C Hk Hz eq_refl) as (s2 & Hd & Ht & _);
    [discriminate | lia |].
  exists s1, s2, (map chunk_result (chunksOf (S (length C)) k C)).
  split; [exact (open_raw s p C Hp Hr Hc)|].
  split; [exact Hd|]. split; [reflexivity|].
  split.
  { apply Forall_forall. intros r Hin. apply in_map_iff in Hin.
    destruct Hin as (c & <- & _). discriminate. }
  split; [|exact Ht].
  rewrite map_map. cbn [chunk_result snd]. rewrite map_id.
  apply concat_chunksOf; [exact Hk | lia].
Qed.

(** C3 (end-of-stream stability), as the code has it.  Once a call with a
    destination of capacity at least 1 has returned [eos] (in zstd mode:
    with [endOfCompressedStream] set when it returned), every later call,
    whatever its destination, returns [eos] and leaves the source, its
    stream included, exactly as it was. *)
Theorem eos_is_stable (s s' : Source) (b b' : TupleBuffer) (bufs : list TupleBuffer) :
  1 <= getBufferSize b ->
  fill s b = (Returns eos, s', b') ->
  (zstd_mode s -> endOfCompressedStream s' = true) ->
  fills s' bufs = (map (fun _ => Returns eos) bufs, s').
Proof.
  intros Hk H He. apply fills_drained.
  exact (fill_eos_drained s s' b b' Hk H He).
Qed.

(** C4 (no empty non-terminal result).  A call that returns never returns
    [withBytes 0], and it returns [eos] exactly when it wrote no byte (the
    byte counter did not move).  With a codec context in zstd mode and a
    codec that keeps the promises of its interface every call completes: it
    returns [eos], returns [withBytes n] with [0 < n], or, in zstd mode
    only, throws. *)
Theorem no_empty_result
        (Hb : codec_bounded ZSTD_decompressStream)
        (Hp : codec_progress ZSTD_decompressStream)
        (s : Source) (b : TupleBuffer) :
  (zstd_mode s -> zstdContext s <> None) ->
  (forall r s' b',
      fill s b = (Returns r, s', b') ->
      r <> withBytes 0 /\
      (r = eos <-> totalNumBytesRead s' = totalNumBytesRead s)) /\
  ((exists s' b', fill s b = (Returns eos, s', b'))
   \/ (exists n s' b', fill s b = (Returns (withBytes n), s', b') /\ 0 < n)
   \/ (exists e s' b', fill s b = (Throws e, s', b') /\ zstd_mode s)).
Proof.
  intros Hctx. split.
  - intros r s' b' H.
    apply fill_returns in H. destruct H as (Hc & Hn & _).
    split; [exact Hn|]. destruct r as [|n]; simpl in *.
    + split; [intros _; lia | reflexivity].
    + split; [discriminate|]. intros E. destruct n; [congruence | lia].
  - pose proof (fill_completes Hb Hp s b Hctx) as Hc.
    destruct (fill s b) as [[o s'] b'] eqn:H. simpl in Hc.
    destruct o as [r|e| |]; try contradiction.
    + destruct r as [|n]; [left; eauto|].
      right; left. exists n, s', b'. split; [reflexivity|].
      apply fill_returns in H. destruct H as (_ & Hn & _).
      destruct n; [congruence | lia].
    + right; right. exists e, s', b'. split; [reflexivity|].
      destruct (String.eqb_spec (compressionType s) "zstd") as [Hz|Hz];
        [exact Hz|].
      destruct (fill_raw_returns s b Hz) as (r & s1 & b1 & E). congruence.
Qed.

(** C9 (byte counter).  A call that returns [withBytes n] adds exactly [n]
    to the counter and one that returns [eos] adds nothing; no call,
    however it ends, lowers the counter; after a drain (a run of calls up
    to the terminal [eos]) the counter has grown by the total length of the
    bytes delivered, which is the sum of the reported counts; and draining
    an uncompressed source does return, with the counter grown by the
    number of raw bytes the stream held. *)
Theorem byte_counter_correct :
  (forall (s s' : Source) b b' r,
      fill s b = (Returns r, s', b') ->
      totalNumBytesRead s' = totalNumBytesRead s + numBytes r) /\
  (forall (s : Source) b,
      totalNumBytesRead s <= totalNumBytesRead (snd (fst (fill s b)))) /\
  (forall fuel k (s s' : Source) rs,
      drains fuel k s = (Returns rs, s') ->
      totalNumBytesRead s' = totalNumBytesRead s + length (concat (map snd rs)) /\
      length (concat (map snd rs)) = list_sum (map (fun r => numBytes (fst r)) rs) /\
      exists rs', rs = rs' ++ [(eos, [])] /\ Forall (fun r => fst r <> eos) rs') /\
  (forall k (s : Source),
      1 <= k ->
      ~ zstd_mode s ->
      (failbit (inputFile s) = true -> rest (inputFile s) = []) ->
      exists rs s',
        drains (S (length (rest (inputFile s)))) k s = (Returns rs, s') /\
        totalNumBytesRead s'
        = totalNumBytesRead s + length (rest (inputFile s))).
Proof.
  split; [|split; [|split]].
  - intros s s' b b' r H. apply fill_returns in H. exact (proj1 H).
  - intros s b.
    destruct (fill s b) as [[o s'] b'] eqn:H. simpl.
    destruct o as [r|e| |];
      [apply fill_returns in H; lia | | |];
      rewrite (fill_counter_kept _ _ _ _ _ H); auto; discriminate.
  - intros fuel k s s' rs H. exact (drain_counts fuel k s s' rs H).
  - intros k s Hk Hz Hf.
    destruct (drain_raw (S (length (rest (inputFile s)))) k s
                (rest (inputFile s)) Hk Hz eq_refl Hf (Nat.lt_succ_diag_r _))
      as (s' & Hd & Ht & _).
    eexists _, s'. split; [exact Hd | exact Ht].
Qed.

(** C10 (zero-capacity destination).  In either mode a call with a
    destination of capacity 0 returns [eos] and changes nothing: not the
    source, not its stream, not the destination.  So that [eos] does not
    mean the session is exhausted: on an uncompressed source whose stream
    still holds data, the next call with room for at least one byte returns
    [withBytes n] with [0 < n]. *)
Theorem zero_capacity_returns_eos (s : Source) (b : TupleBuffer) :
  getBufferSize b = 0 ->
  fill s b = (Returns eos, s, b) /\
  (forall b1,
      ~ zstd_mode s ->
      failbit (inputFile s) = false ->
      rest (inputFile s) <> [] ->
      1 <= getBufferSize b1 ->
      exists n s',
        0 < n /\
        fills s [b; b1] = ([Returns eos; Returns (withBytes n)], s')).
Proof.
  intros H0.
  assert (Hfill : fill s b = (Returns eos, s, b)).
  { destruct (String.eqb_spec (compressionType s) "zstd") as [Hz|Hz].
    - rewrite (fill_zstd s b Hz), H0. simpl.
      now rewrite set_totalNumBytesRead_same, mkTupleBuffer_same.
    - rewrite (fill_raw s b Hz), H0, ifstream_read_zero. simpl.
      now rewrite write_at_nil, set_inputFile_same,
        set_totalNumBytesRead_same, mkTupleBuffer_same. }
  split; [exact Hfill|].
  intros b1 Hz Hgood Hrest Hk.
  cbn [fillAll]. rewrite Hfill, (fill_raw s b1 Hz). cbv zeta.
  rewrite (ifstream_read_good _ _ Hgood). cbn [fst snd].
  set (got := firstn (getBufferSize b1) (rest (inputFile s))).
  assert (Hgot : 0 < length got).
  { unfold got. rewrite length_firstn.
    destruct (rest (inputFile s)); [congruence | simpl; lia]. }
  destruct (length got =? 0) eqn:E; [apply Nat.eqb_eq in E; lia|].
  eexists _, _. split; [exact Hgot | reflexivity].
Qed.

(** C5 (unsupported compression), as the code has it.  When the file can be
    opened and the compression type is none of ["zstd"], ["none"] and the
    empty string, [open] throws a configuration error whose text names the
    unsupported value; no codec context is created, and the stream that was
    opened before the check is still attached to the source. *)
Theorem open_rejects_unsupported (s : Source) (p : string) (C : list byte) :
  realpath (filePath s) = Some p ->
  readable p = Some C ->
  compressionType s <> "zstd" ->
  compressionType s <> "none" ->
  compressionType s <> "" ->
  exists e s',
    opens s = (Throws e, s') /\
    errorKind e = ConfigurationError /\
    what e = ("Unsupported compression type: " ++ compressionType s)%string /\
    zstdContext s' = zstdContext s /\
    inputFile s' = mkIfstream true C false.
Proof.
  intros Hp Hr Hz Hn He.
  apply String.eqb_neq in Hz, Hn, He.
  eexists _, _. split.
  - unfold open, ifstream_ctor. rewrite Hp, Hr. simpl.
    rewrite Hz, Hn, He. simpl. reflexivity.
  - repeat split.
Qed.

(** C6 (open failure), as the code has it.  When the configured path does
    not resolve, or resolves to a file that cannot be opened, [open] throws
    [InvalidConfigParameter], a configuration error, whose text carries the
    configured path and the system error text; no stream is attached. *)
Theorem open_failure_is_configuration_error (s : Source) :
  realpath (filePath s) = None
  \/ (exists p, realpath (filePath s) = Some p /\ readable p = None) ->
  exists e s',
    opens s = (Throws e, s') /\
    errorKind e = ConfigurationError /\
    what e = ("Could not determine absolute pathname: " ++ filePath s
              ++ " - " ++ getErrorMessageFromERRNO)%string /\
    is_open (inputFile s') = false.
Proof.
  intros H. eexists _, _. split.
  - exact (open_unreachable_file s H).
  - repeat split.
Qed.

(** *** The decode pass against the specification *)

(** The decode loop of the source refines [feedCodec]: started with the
    bytes emitted so far in the staging buffer below the write cursor, it
    ends as [feedCodec] does, with the emitted bytes below the write
    cursor. *)
Lemma decompressLoop_feeds (Hb : codec_bounded ZSTD_decompressStream) (fuel : nat) :
  forall src pos (s : Source) ctx emitted,
    zstdContext s = Some ctx ->
    decompressedSize s = length emitted ->
    length emitted <= length (decompressedBuffer s) ->
    firstn (length emitted) (decompressedBuffer s) = emitted ->
    match feedCodec ZSTD_decompressStream fuel (length (decompressedBuffer s))
            ctx (skipn pos src) emitted with
    | FedAll ctx' out =>
        exists s',
          decompressLoop ZSTD_decompressStream fuel src pos s = (Returns tt, s') /\
          zstdContext s' = Some ctx' /\
          decompressedSize s' = length out /\
          firstn (length out) (decompressedBuffer s') = out /\
          length (decompressedBuffer s') = length (decompressedBuffer s)
    | CodecError name =>
        exists s',
          decompressLoop ZSTD_decompressStream fuel src pos s
          = (Throws (InvalidConfigParameter
                       ("ZSTD decompression error: " ++ name)%string), s')
    | StillFeeding =>
        exists s',
          decompressLoop ZSTD_decompressStream fuel src pos s = (Diverges, s')
    end.
Proof.
  induction fuel as [|fuel IH]; intros src pos s ctx emitted Hctx Hsz Hle Hfst.
  - simpl. eauto.
  - cbn [feedCodec decompressLoop].
    destruct (Nat.ltb_spec pos (length src)) as [Hpos|Hpos].
    2:{ rewrite skipn_all2 by exact Hpos.
        exists s. repeat split; auto. }
    destruct (skipn pos src) as [|x unread] eqn:Hun.
    { apply (f_equal (@length byte)) in Hun. rewrite length_skipn in Hun.
      simpl in Hun. lia. }
    rewrite Hctx, Hsz.
    destruct (ZSTD_decompressStream ctx _ (x :: unread))
      as [name|ctx' produced consumed] eqn:Hc.
    { eauto. }
    pose proof (Hb _ _ _ _ _ _ Hc) as [Hprod _].
    assert (Hlen : length (write_at (length emitted) produced (decompressedBuffer s))
                   = length (decompressedBuffer s))
      by (apply length_write_at; lia).
    assert (Hout : firstn (length (emitted ++ produced))
                     (write_at (length emitted) produced (decompressedBuffer s))
                   = emitted ++ produced).
    { rewrite length_app, firstn_write_at by exact Hle. now rewrite Hfst. }
    cbn [set_zstdContext set_decompressedBuffer set_decompressedSize
         decompressedBuffer decompressedSize zstdContext filePath
         compressionType inputFile compressedBuffer decompressedOffset
         endOfCompressedStream totalNumBytesRead].
    rewrite Hsz, Hlen, <- length_app.
    destruct (length (decompressedBuffer s) <=? length (emitted ++ produced))
      eqn:Hfull.
    + eexists. split; [reflexivity|].
      cbn [zstdContext decompressedSize decompressedBuffer].
      repeat split; auto.
    + apply Nat.leb_gt in Hfull.
      match goal with
      | |- context [decompressLoop _ fuel src (pos + consumed) ?s2] =>
          pose proof (IH src (pos + consumed) s2 ctx' (emitted ++ produced)) as H
      end.
      cbn [set_zstdContext set_decompressedBuffer set_decompressedSize
           zstdContext decompressedSize decompressedBuffer] in H.
      rewrite Hlen in H.
      replace (skipn (pos + consumed) src) with (skipn consumed (x :: unread)) in H
        by (rewrite <- Hun, skipn_skipn; f_equal; lia).
      apply H; auto. lia.
Qed.

(** One [decompressNextBlock] on a chunk that is not empty ends as
    [feedCodec] does on that chunk, started with nothing emitted. *)
Lemma decode_feeds (Hb : codec_bounded ZSTD_decompressStream) (s : Source)
      (got : list byte) (f : ifstream) (ctx : DCtx) :
  endOfCompressedStream s = false ->
  ifstream_read (inputFile s) (length (compressedBuffer s)) = (got, f) ->
  got <> [] ->
  zstdContext s = Some ctx ->
  match feedCodec ZSTD_decompressStream
          (length got + length (decompressedBuffer s) + 1)
          (length (decompressedBuffer s)) ctx got [] with
  | FedAll ctx' emitted =>
      exists s',
        decode s = (Returns (0 <? length emitted), s') /\
        zstdContext s' = Some ctx' /\
        decompressedOffset s' = 0 /\
        decompressedSize s' = length emitted /\
        staged s' = emitted /\
        length (decompressedBuffer s') = length (decompressedBuffer s) /\
        inputFile s' = f /\
        endOfCompressedStream s' = false
  | CodecError name =>
      exists s',
        decode s
        = (Throws (InvalidConfigParameter
                     ("ZSTD decompression error: " ++ name)%string), s') /\
        decompressedOffset s' = decompressedOffset s /\
        inputFile s' = f
  | StillFeeding => exists s', decode s = (Diverges, s')
  end.
Proof.
  intros He Hread Hne Hctx.
  destruct (decode s) as [o s'] eqn:H. apply decode_cases in H.
  destruct H
    as [(He' & _) | [(_ & f' & Hr & _) | (_ & got' & f' & o1 & s1 & Hr & _ & Hl & Ho)]].
  { congruence. }
  { rewrite Hread in Hr. inversion Hr; subst. congruence. }
  rewrite Hread in Hr. inversion Hr; subst got' f'.
  assert (Hsrc : firstn (length got) (compressedBuffer (chunk_loaded got f s)) = got)
    by apply firstn_write_at_0.
  rewrite Hsrc in Hl. unfold decompressFuel in Hl.
  pose proof (decompressLoop_frame _ _ _ _ _ _ Hl) as (_ & _ & F3 & _ & F5 & F6 & _).
  pose proof (decompressLoop_feeds Hb
                (length got + length (decompressedBuffer (chunk_loaded got f s)) + 1)
                got 0 (chunk_loaded got f s) ctx []) as Hfeed.
  cbn [chunk_loaded set_decompressedSize set_compressedBuffer set_inputFile
       zstdContext decompressedSize decompressedBuffer decompressedOffset
       inputFile endOfCompressedStream length firstn skipn]
    in Hfeed, Hl, F3, F5, F6.
  specialize (Hfeed Hctx eq_refl (Nat.le_0_l _) eq_refl).
  destruct (feedCodec _ _ _ _ _ _) as [ctx' emitted|name|].
  - destruct Hfeed as (s2 & Hl2 & G1 & G2 & G3 & G4).
    rewrite Hl in Hl2. inversion Hl2; subst o1 s2.
    destruct Ho as [-> ->]. eexists. split; [now rewrite G2|].
    unfold staged.
    cbn [set_decompressedOffset zstdContext decompressedOffset decompressedSize
         decompressedBuffer inputFile endOfCompressedStream skipn].
    rewrite Nat.sub_0_r, G2.
    repeat split; auto; congruence.
  - destruct Hfeed as (s2 & Hl2).
    rewrite Hl in Hl2. inversion Hl2; subst o1 s2.
    destruct Ho as [-> ->]. eexists. split; [reflexivity|].
    split; congruence.
  - destruct Hfeed as (s2 & Hl2).
    rewrite Hl in Hl2. inversion Hl2; subst o1 s2.
    destruct Ho as [-> ->]. eauto.
Qed.

(** C7 (contract of [decompressNextBlock]).  With [endOfCompressedStream]
    set the call returns "no data" and changes nothing.  Otherwise it reads
    from the stream; a read of zero bytes sets [endOfCompressedStream] and
    returns "no data".  Otherwise the call decodes from write cursor 0,
    whatever the cursor was before, and when it returns the read cursor is
    0 and the result is "data available" exactly when the write cursor is
    positive.  What "decodes" means is fixed by [feedCodec], the decode pass
    in the words of the specification: with a codec context and a codec that
    writes no more than the space it is given, when [feedCodec] on the
    chunk read ends with the bytes [emitted], the call returns, with
    exactly these bytes staged from read cursor 0 to the write cursor, and
    reports "data available" exactly when there are any; when [feedCodec]
    ends with a codec error the call throws the decompression error that
    carries the codec's text, and the read cursor is left as it was; and
    with a codec that makes progress one of the two happens. *)
Theorem decompressNextBlock_contract (s : Source) :
  (endOfCompressedStream s = true -> decode s = (Returns false, s)) /\
  (endOfCompressedStream s = false ->
   forall f,
     ifstream_read (inputFile s) (length (compressedBuffer s)) = ([], f) ->
     decode s
     = (Returns false, set_endOfCompressedStream true (set_inputFile f s))) /\
  (endOfCompressedStream s = false ->
   forall got f,
     ifstream_read (inputFile s) (length (compressedBuffer s)) = (got, f) ->
     got <> [] ->
     (forall n, decode (set_decompressedSize n s) = decode s) /\
     (forall b s',
         decode s = (Returns b, s') ->
         inputFile s' = f /\
         endOfCompressedStream s' = false /\
         decompressedOffset s' = 0 /\
         b = (0 <? decompressedSize s'))) /\
  (endOfCompressedStream s = false ->
   forall got f ctx,
     ifstream_read (inputFile s) (length (compressedBuffer s)) = (got, f) ->
     got <> [] ->
     zstdContext s = Some ctx ->
     codec_bounded ZSTD_decompressStream ->
     let capacity := length (decompressedBuffer s) in
     let fed := feedCodec ZSTD_decompressStream (length got + capacity + 1)
                  capacity ctx got [] in
     (codec_progress ZSTD_decompressStream -> fed <> StillFeeding) /\
     (forall ctx' emitted,
         fed = FedAll ctx' emitted ->
         length emitted <= capacity /\
         exists s',
           decode s = (Returns (0 <? length emitted), s') /\
           zstdContext s' = Some ctx' /\
           decompressedOffset s' = 0 /\
           decompressedSize s' = length emitted /\
           staged s' = emitted /\
           length (decompressedBuffer s') = capacity /\
           inputFile s' = f /\
           endOfCompressedStream s' = false) /\
     (forall name,
         fed = CodecError name ->
         exists s',
           decode s
           = (Throws (InvalidConfigParameter
                        ("ZSTD decompression error: " ++ name)%string), s') /\
           decompressedOffset s' = decompressedOffset s /\
           inputFile s' = f)).
Proof.
  split; [exact (decode_exhausted s)|]. split; [|split].
  - intros He f Hread.
    destruct (decode s) as [o s'] eqn:H. apply decode_cases in H.
    destruct H as [(He' & _) | [(_ & f' & Hr & -> & ->) | (_ & got & f' & o1 & s1 & Hr & Hne & _)]].
    + congruence.
    + rewrite Hread in Hr. inversion Hr; subst. reflexivity.
    + rewrite Hread in Hr. inversion Hr; subst. congruence.
  - intros He got f Hread Hne. split.
    + intros n. unfold decompressNextBlock. cbn [set_decompressedSize
        endOfCompressedStream inputFile compressedBuffer].
      rewrite He, Hread.
      destruct got as [|x got]; [congruence|]. reflexivity.
    + intros b s' H. apply decode_cases in H.
      destruct H
        as [(He' & _) | [(_ & f' & Hr & _) | (_ & got' & f' & o1 & s1 & Hr & _ & Hl & Ho)]].
      * congruence.
      * rewrite Hread in Hr. inversion Hr; subst. congruence.
      * rewrite Hread in Hr. inversion Hr; subst got' f'.
        apply decompressLoop_frame in Hl.
        destruct Hl as (_ & _ & F3 & _ & _ & F6 & _).
        destruct o1; destruct Ho as [Ho ->]; try discriminate.
        inversion Ho; subst. simpl in *. repeat split; congruence.
  - intros He got f ctx Hread Hne Hctx Hb capacity fed.
    pose proof (decode_feeds Hb s got f ctx He Hread Hne Hctx) as Hfeed.
    fold capacity in Hfeed. fold fed in Hfeed.
    split; [|split].
    + intros Hp Hstill. rewrite Hstill in Hfeed.
      destruct Hfeed as (s' & Hd).
      assert (Hsome : zstdContext s <> None) by congruence.
      pose proof (decode_completes Hb Hp s Hsome) as Hc.
      rewrite Hd in Hc. exact Hc.
    + intros ctx' emitted Hfed. rewrite Hfed in Hfeed.
      destruct Hfeed as (s' & Hd & G1 & G2 & G3 & G4 & G5 & G6 & G7).
      split.
      * rewrite <- G4 at 1. unfold staged.
        rewrite length_firstn, length_skipn, G2, G5. fold capacity. lia.
      * exists s'. repeat split; assumption.
    + intros name Hfed. rewrite Hfed in Hfeed. exact Hfeed.
Qed.

(** A session in which calls may fail: the write cursor stays within the
    output staging buffer, whose capacity stays [ZSTD_DStreamOutSize]. *)
Lemma session_size_bound (Hb : codec_bounded ZSTD_decompressStream) (s : Source) :
  session ZSTD_decompressStream ZSTD_createDCtx ZSTD_DStreamInSize
    ZSTD_DStreamOutSize realpath readable getErrorMessageFromERRNO s ->
  zstd_mode s /\
  decompressedSize s <= length (decompressedBuffer s) /\
  length (decompressedBuffer s) = ZSTD_DStreamOutSize.
Proof.
  intros Hs.
  induction Hs as [s s' Hz Ho | s s' o _ IH Hd | s s' buf buf' o _ IH Hf
                   | s ctx area _ IH Ha].
  - unfold open in Ho. cbv zeta in Ho.
    cbn [compressionType filePath inputFile zstdContext set_inputFile
         set_zstdContext] in Ho.
    unfold zstd_mode in Hz. rewrite Hz, String.eqb_refl in Ho.
    destruct (failbit (ifstream_ctor readable (realpath (filePath s))));
      [discriminate|].
    destruct ZSTD_createDCtx; [|discriminate].
    inversion Ho; subst. unfold zstd_mode. simpl.
    rewrite length_resize. repeat split; auto; lia.
  - destruct IH as (Hz & Hle & Hlen).
    pose proof (decode_frame _ _ _ Hd) as (_ & F2 & _).
    apply (decode_size_bound Hb) in Hd; [|exact Hle].
    destruct Hd as [Hle' Hlen'].
    unfold zstd_mode in *. repeat split; [congruence | exact Hle' | congruence].
  - destruct IH as (Hz & Hle & Hlen).
    assert (F2 : compressionType s' = compressionType s).
    { rewrite (fill_zstd s buf Hz) in Hf.
      destruct (loop _ _ _ _ _) as [[o1 s1] d1] eqn:Hl.
      pose proof (fillLoop_frame _ _ _ _ _ _ _ _ Hl) as (_ & G2 & _).
      destruct o1 as [t| | |]; [cbv zeta in Hf; destruct (t =? 0)| | |];
        inversion Hf; subst; exact G2. }
    apply (fill_size_bound Hb _ _ _ _ _ Hz Hle) in Hf.
    destruct Hf as [Hle' Hlen'].
    unfold zstd_mode in *. repeat split; [congruence | exact Hle' | congruence].
  - destruct IH as (Hz & Hle & Hlen).
    unfold zstd_mode in *.
    cbn [set_decompressedBuffer set_zstdContext compressionType
         decompressedSize decompressedBuffer].
    repeat split; [exact Hz | lia | congruence].
Qed.

(** C8 (cursor invariant), as amended.  With a codec that writes no more
    than the space it is given, in zstd mode: after [open] and after every
    [decompressNextBlock] and [fillTupleBuffer] of a session whose calls
    have all returned, the cursors satisfy
    [decompressedOffset <= decompressedSize <= capacity], the capacity of
    the output staging buffer being [ZSTD_DStreamOutSize]; and after every
    call of a session, however the calls ended, also after a codec error
    and in the calls that follow it, the write cursor is at most that
    capacity, and one more [decompressNextBlock] or [fillTupleBuffer],
    however it ends, leaves at most that capacity of decompressed output.
    What a codec error takes away is the order of the two cursors only. *)
Theorem cursor_invariant (Hb : codec_bounded ZSTD_decompressStream) (s : Source) :
  (reach s ->
   (decompressedOffset s <= decompressedSize s /\
    decompressedSize s <= length (decompressedBuffer s)) /\
   length (decompressedBuffer s) = ZSTD_DStreamOutSize /\
   (forall o s', decode s = (o, s') -> decompressedSize s' <= ZSTD_DStreamOutSize) /\
   (forall b o s' b',
       fill s b = (o, s', b') -> decompressedSize s' <= ZSTD_DStreamOutSize)) /\
  (session ZSTD_decompressStream ZSTD_createDCtx ZSTD_DStreamInSize
     ZSTD_DStreamOutSize realpath readable getErrorMessageFromERRNO s ->
   decompressedSize s <= length (decompressedBuffer s) /\
   length (decompressedBuffer s) = ZSTD_DStreamOutSize /\
   (forall o s', decode s = (o, s') -> decompressedSize s' <= ZSTD_DStreamOutSize) /\
   (forall b o s' b',
       fill s b = (o, s', b') -> decompressedSize s' <= ZSTD_DStreamOutSize)).
Proof.
  split.
  - intros Hr.
    assert (Hinv : zstd_mode s /\ cursors_ok s /\
                   length (decompressedBuffer s) = ZSTD_DStreamOutSize).
    { induction Hr as [s s' Hz Ho | s s' b _ IH Hd | s s' buf buf' r _ IH Hf].
      - unfold open in Ho. cbv zeta in Ho.
        cbn [compressionType filePath inputFile zstdContext set_inputFile
             set_zstdContext] in Ho.
        unfold zstd_mode in Hz. rewrite Hz, String.eqb_refl in Ho.
        destruct (failbit (ifstream_ctor readable (realpath (filePath s))));
          [discriminate|].
        destruct ZSTD_createDCtx; [|discriminate].
        inversion Ho; subst. unfold cursors_ok, zstd_mode. simpl.
        rewrite length_resize. repeat split; auto; lia.
      - destruct IH as (Hz & Hok & Hlen).
        pose proof (decode_frame _ _ _ Hd) as (_ & F2 & _).
        apply (decode_cursors Hb) in Hd; [|exact Hok].
        destruct Hd as [Hok' Hlen'].
        unfold zstd_mode in *. repeat split; try apply Hok'; congruence.
      - destruct IH as (Hz & Hok & Hlen).
        pose proof (fill_returns _ _ _ _ _ Hf) as (_ & _ & _ & _ & _ & F2).
        rewrite (fill_zstd s buf Hz) in Hf.
        destruct (loop _ _ _ _ _) as [[o s1] d1] eqn:Hl.
        destruct o as [t| | |]; try discriminate.
        apply (fillLoop_cursors Hb) in Hl; [|exact Hok].
        assert (Es : s' = set_totalNumBytesRead (totalNumBytesRead s1 + t) s1)
          by (simpl in Hf; destruct (t =? 0); inversion Hf; reflexivity).
        subst s'. destruct Hl as [Hok' Hlen'].
        unfold cursors_ok, zstd_mode in *. simpl in *.
        repeat split; try apply Hok'; congruence. }
    destruct Hinv as (Hz & Hok & Hlen).
    split; [exact Hok|]. split; [exact Hlen|]. split.
    + intros o s' Hd.
      apply (decode_size_bound Hb) in Hd; [|exact (proj2 Hok)]. lia.
    + intros b o s' b' Hf.
      apply (fill_size_bound Hb _ _ _ _ _ Hz (proj2 Hok)) in Hf. lia.
  - intros Hs.
    destruct (session_size_bound Hb s Hs) as (Hz & Hle & Hlen).
    split; [exact Hle|]. split; [exact Hlen|]. split.
    + intros o s' Hd.
      apply (decode_size_bound Hb) in Hd; [|exact Hle]. lia.
    + intros b o s' b' Hf.
      apply (fill_size_bound Hb _ _ _ _ _ Hz Hle) in Hf. lia.
Qed.

(** ** Further properties *)

(** *** open, case by case *)

Lemma open_zstd (s : Source) (p : string) (C : list byte) (ctx : DCtx) :
  realpath (filePath s) = Some p ->
  readable p = Some C ->
  compressionType s = "zstd" ->
  ZSTD_createDCtx = Some ctx ->
  opens s
  = (Returns tt,
     mkFileSource (filePath s) (compressionType s) (mkIfstream true C false)
       (Some ctx)
       (resize ZSTD_DStreamInSize (compressedBuffer s))
       (resize ZSTD_DStreamOutSize (decompressedBuffer s))
       0 0 false (totalNumBytesRead s)).
Proof.
  intros Hp HC Hz Hctx. apply String.eqb_eq in Hz.
  unfold open, ifstream_ctor. rewrite Hp, HC. simpl.
  rewrite Hz. simpl. rewrite Hctx. reflexivity.
Qed.

Lemma open_zstd_no_context (s : Source) (p : string) (C : list byte) :
  realpath (filePath s) = Some p ->
  readable p = Some C ->
  compressionType s = "zstd" ->
  ZSTD_createDCtx = None ->
  opens s
  = (Throws (InvalidConfigParameter "Failed to create ZSTD decompression context"),
     set_zstdContext None (set_inputFile (mkIfstream true C false) s)).
Proof.
  intros Hp HC Hz Hctx. apply String.eqb_eq in Hz.
  unfold open, ifstream_ctor. rewrite Hp, HC. simpl.
  rewrite Hz. simpl. rewrite Hctx. reflexivity.
Qed.

Lemma open_unsupported (s : Source) (p : string) (C : list byte) :
  realpath (filePath s) = Some p ->
  readable p = Some C ->
  compressionType s <> "zstd" ->
  compressionType s <> "none" ->
  compressionType s <> "" ->
  opens s
  = (Throws (InvalidConfigParameter
               ("Unsupported compression type: " ++ compressionType s)%string),
     set_inputFile (mkIfstream true C false) s).
Proof.
  intros Hp HC Hz Hn He. apply String.eqb_neq in Hz, Hn, He.
  unfold open, ifstream_ctor. rewrite Hp, HC. simpl.
  rewrite Hz, Hn, He. reflexivity.
Qed.

Lemma context_or_none :
  (exists ctx, ZSTD_createDCtx = Some ctx) \/ ZSTD_createDCtx = None.
Proof.
  destruct ZSTD_createDCtx as [ctx|]; [left; exists ctx; reflexivity | now right].
Qed.

(** A successful [open] in zstd mode, read backwards. *)
Lemma open_zstd_inv (s s' : Source) :
  zstd_mode s ->
  opens s = (Returns tt, s') ->
  exists p C ctx,
    realpath (filePath s) = Some p /\ readable p = Some C /\
    ZSTD_createDCtx = Some ctx /\
    s' = mkFileSource (filePath s) (compressionType s) (mkIfstream true C false)
           (Some ctx)
           (resize ZSTD_DStreamInSize (compressedBuffer s))
           (resize ZSTD_DStreamOutSize (decompressedBuffer s))
           0 0 false (totalNumBytesRead s).
Proof.
  intros Hz Ho.
  destruct (realpath (filePath s)) as [p|] eqn:Hp.
  2:{ rewrite (open_unreachable_file s (or_introl Hp)) in Ho. discriminate. }
  destruct (readable p) as [C|] eqn:HC.
  2:{ rewrite (open_unreachable_file s) in Ho; [discriminate|].
      right. exists p. auto. }
  destruct context_or_none as [[ctx Hctx] | Hctx].
  - rewrite (open_zstd s p C ctx Hp HC Hz Hctx) in Ho. inversion Ho.
    exists p, C, ctx. auto.
  - rewrite (open_zstd_no_context s p C Hp HC Hz Hctx) in Ho. discriminate.
Qed.

(** *** The stream the decoder produces *)

Local Abbreviation coming := (upcoming ZSTD_decompressStream).
Local Abbreviation dloop := (decompressLoop ZSTD_decompressStream).

Lemma firstn_split (n a : nat) (l : list byte) :
  n <= a -> firstn a l = firstn n l ++ firstn (a - n) (skipn n l).
Proof.
  intros H. replace a with (n + (a - n)) at 1 by lia.
  generalize (a - n) as m. clear H. revert l.
  induction n as [|n IH]; intros l m; [reflexivity|].
  destruct l as [|x l]; [now rewrite !firstn_nil|].
  cbn [Nat.add firstn skipn app]. now rewrite IH.
Qed.


(** The decode loop neither reads nor writes the read cursor and the byte
    counter. *)
Lemma decompressLoop_set_offset (fuel : nat) :
  forall src pos v (s : Source),
    dloop fuel src pos (set_decompressedOffset v s)
    = (fst (dloop fuel src pos s),
       set_decompressedOffset v (snd (dloop fuel src pos s))).
Proof.
  induction fuel as [|fuel IH]; intros src pos v s; [reflexivity|].
  destruct s as [fp ct inf ctx cb db off sz e n]. simpl.
  destruct (pos <? length src); [|reflexivity].
  destruct ctx as [ctx|]; [|reflexivity].
  destruct (ZSTD_decompressStream ctx _ _) as [name|ctx' produced consumed];
    [reflexivity|].
  simpl.
  destruct (length (write_at sz produced db) <=? sz + length produced);
    [reflexivity|].
  exact (IH src (pos + consumed) v
           (mkFileSource fp ct inf (Some ctx') cb (write_at sz produced db)
              off (sz + length produced) e n)).
Qed.

Lemma decompressLoop_set_total (fuel : nat) :
  forall src pos v (s : Source),
    dloop fuel src pos (set_totalNumBytesRead v s)
    = (fst (dloop fuel src pos s),
       set_totalNumBytesRead v (snd (dloop fuel src pos s))).
Proof.
  induction fuel as [|fuel IH]; intros src pos v s; [reflexivity|].
  destruct s as [fp ct inf ctx cb db off sz e n]. simpl.
  destruct (pos <? length src); [|reflexivity].
  destruct ctx as [ctx|]; [|reflexivity].
  destruct (ZSTD_decompressStream ctx _ _) as [name|ctx' produced consumed];
    [reflexivity|].
  simpl.
  destruct (length (write_at sz produced db) <=? sz + length produced);
    [reflexivity|].
  exact (IH src (pos + consumed) v
           (mkFileSource fp ct inf (Some ctx') cb (write_at sz produced db)
              off (sz + length produced) e n)).
Qed.

Ltac fields :=
  unfold set_inputFile, set_zstdContext, set_compressedBuffer,
    set_decompressedBuffer, set_decompressedOffset, set_decompressedSize,
    set_endOfCompressedStream, set_totalNumBytesRead in *;
  cbn [filePath compressionType inputFile zstdContext compressedBuffer
       decompressedBuffer decompressedOffset decompressedSize
       endOfCompressedStream totalNumBytesRead fst snd] in *.

(** [decompressNextBlock] does not look at the byte counter. *)
Lemma decode_set_total (v : nat) (s : Source) :
  decode (set_totalNumBytesRead v s)
  = (fst (decode s), set_totalNumBytesRead v (snd (decode s))).
Proof.
  destruct s as [fp ct inf ctx cb db off sz e n].
  unfold decompressNextBlock, decompressFuel. fields.
  destruct e; [reflexivity|].
  destruct (ifstream_read inf (length cb)) as [got f].
  destruct got as [|x got]; [reflexivity|].
  change (length (x :: got) =? 0) with false. cbv beta iota zeta. fields.
  match goal with
  | |- context [dloop ?fu ?src 0 (mkFileSource fp ct f ctx ?cb' db off 0 false v)] =>
      pose proof (decompressLoop_set_total fu src 0 v
                    (mkFileSource fp ct f ctx cb' db off 0 false n)) as E;
      fields
  end.
  rewrite E. clear E.
  destruct (dloop _ _ 0 _) as [[u| | |] s1]; reflexivity.
Qed.

(** Nor does it look at the read cursor: from two sources that differ in
    the read cursor only it returns the same result, and either the same
    source or, in both cases, an exhausted one. *)
Lemma decode_set_offset (v : nat) (s : Source) :
  endOfCompressedStream s = false ->
  fst (decode (set_decompressedOffset v s)) = fst (decode s) /\
  (forall b, fst (decode s) = Returns b ->
     snd (decode (set_decompressedOffset v s)) = snd (decode s)
     \/ (endOfCompressedStream (snd (decode s)) = true /\
         endOfCompressedStream (snd (decode (set_decompressedOffset v s))) = true)).
Proof.
  destruct s as [fp ct inf ctx cb db off sz e n]. fields. intros ->.
  unfold decompressNextBlock, decompressFuel. fields.
  destruct (ifstream_read inf (length cb)) as [got f].
  destruct got as [|x got].
  { split; [reflexivity|]. intros b _. right. split; reflexivity. }
  change (length (x :: got) =? 0) with false. cbv beta iota zeta. fields.
  match goal with
  | |- context [dloop ?fu ?src 0 (mkFileSource fp ct f ctx ?cb' db v 0 false n)] =>
      pose proof (decompressLoop_set_offset fu src 0 v
                    (mkFileSource fp ct f ctx cb' db off 0 false n)) as E;
      fields
  end.
  rewrite E. clear E.
  destruct (dloop _ _ 0 _) as [[u| | |] s1]; fields;
    (split; [reflexivity|]); intros b Hb; try discriminate.
  left. destruct s1; reflexivity.
Qed.

Lemma upcoming_unfold (fuel : nat) (s : Source) :
  coming (S fuel) s
  = if endOfCompressedStream s then Some []
    else
      match decode s with
      | (Returns _, s') =>
          if endOfCompressedStream s' then Some []
          else
            match coming fuel s' with
            | Some bs => Some (staged s' ++ bs)
            | None => None
            end
      | _ => None
      end.
Proof. reflexivity. Qed.

(** More fuel does not change what is coming. *)
Lemma upcoming_more (fuel : nat) :
  forall (s : Source) bs,
    coming fuel s = Some bs -> coming (S fuel) s = Some bs.
Proof.
  induction fuel as [|fuel IH]; intros s bs H; [discriminate|].
  rewrite upcoming_unfold in H. rewrite (upcoming_unfold (S fuel)).
  destruct (endOfCompressedStream s); [exact H|].
  destruct (decode s) as [[b| | |] s1]; try discriminate.
  destruct (endOfCompressedStream s1); [exact H|].
  destruct (coming fuel s1) as [bs1|] eqn:E; [|discriminate].
  rewrite (IH _ _ E). exact H.
Qed.

Lemma upcoming_set_total (fuel : nat) :
  forall v (s : Source), coming fuel (set_totalNumBytesRead v s) = coming fuel s.
Proof.
  induction fuel as [|fuel IH]; intros v s; [reflexivity|].
  rewrite !upcoming_unfold, decode_set_total.
  change (endOfCompressedStream (set_totalNumBytesRead v s))
    with (endOfCompressedStream s).
  destruct (endOfCompressedStream s); [reflexivity|].
  destruct (decode s) as [[b| | |] s1]; cbn [fst snd]; try reflexivity.
  change (endOfCompressedStream (set_totalNumBytesRead v s1))
    with (endOfCompressedStream s1).
  destruct (endOfCompressedStream s1); [reflexivity|].
  rewrite IH. reflexivity.
Qed.

Lemma upcoming_set_offset (fuel : nat) (v : nat) (s : Source) :
  coming fuel (set_decompressedOffset v s) = coming fuel s.
Proof.
  destruct fuel as [|fuel]; [reflexivity|].
  rewrite !upcoming_unfold.
  change (endOfCompressedStream (set_decompressedOffset v s))
    with (endOfCompressedStream s).
  destruct (endOfCompressedStream s) eqn:He; [reflexivity|].
  destruct (decode_set_offset v s He) as [Ho Hs].
  destruct (decode s) as [o s1].
  destruct (decode (set_decompressedOffset v s)) as [o2 s2].
  cbn [fst snd] in *. subst o2.
  destruct o as [b| | |]; try reflexivity.
  destruct (Hs b eq_refl) as [-> | [E1 E2]]; [reflexivity|].
  now rewrite E1, E2.
Qed.

(** The copy step of the fill loop takes the front of the staged bytes. *)
Lemma staged_copy (s : Source) (n : nat) :
  cursors_ok s ->
  n <= decompressedSize s - decompressedOffset s ->
  let chunk := firstn n (skipn (decompressedOffset s) (decompressedBuffer s)) in
  length chunk = n /\
  staged s = chunk ++ staged (set_decompressedOffset (decompressedOffset s + n) s).
Proof.
  intros [Ho Hs] Hn chunk. split.
  - unfold chunk. rewrite length_firstn, length_skipn. lia.
  - unfold staged, chunk. cbn [decompressedOffset decompressedSize
      decompressedBuffer set_decompressedOffset].
    rewrite (firstn_split n _ _ Hn), skipn_skipn.
    replace (decompressedSize s - (decompressedOffset s + n))
      with (decompressedSize s - decompressedOffset s - n) by lia.
    now rewrite (Nat.add_comm n).
Qed.

(** Conservation in the fill loop: what is already in the destination,
    then the staged bytes, then what is coming, is the same stream before
    and after. *)
Lemma fillLoop_stream (Hb : codec_bounded ZSTD_decompressStream) (fuel : nat) :
  forall bufferSize (s s' : Source) dest dest' total t F out,
    cursors_ok s ->
    length dest = bufferSize ->
    total <= bufferSize ->
    loop fuel bufferSize s dest total = (Returns t, s', dest') ->
    coming F s = Some out ->
    exists out',
      coming F s' = Some out' /\
      firstn total dest ++ staged s ++ out
      = firstn t dest' ++ staged s' ++ out'.
Proof.
  induction fuel as [|fuel IH];
    intros bufferSize s s' dest dest' total t F out Hok Hlen Htot H Hc;
    simpl in H; [discriminate|].
  destruct (total <? bufferSize) eqn:Hlt.
  2:{ inversion H; subst. exists out. auto. }
  apply Nat.ltb_lt in Hlt.
  destruct (decompressedOffset s <? decompressedSize s) eqn:Hav.
  - apply Nat.ltb_lt in Hav.
    set (n := Nat.min (decompressedSize s - decompressedOffset s)
                (bufferSize - total)) in *.
    assert (Hn : n <= decompressedSize s - decompressedOffset s) by (unfold n; lia).
    destruct (staged_copy s n Hok Hn) as [Hcl Hst].
    set (chunk := firstn n (skipn (decompressedOffset s) (decompressedBuffer s))) in *.
    eapply IH with (F := F) (out := out) in H.
    + destruct H as (out' & Hc' & Heq). exists out'. split; [exact Hc'|].
      pose proof (firstn_write_at total chunk dest) as Hw.
      rewrite Hcl in Hw.
      rewrite <- Heq, Hw, Hst by lia.
      now rewrite <- !app_assoc.
    + destruct Hok as [Ho Hs]. split; simpl; lia.
    + rewrite length_write_at; [exact Hlen | lia].
    + unfold n. lia.
    + rewrite upcoming_set_offset. exact Hc.
  - apply Nat.ltb_ge in Hav.
    assert (Hnone : staged s = []).
    { unfold staged. replace (decompressedSize s - decompressedOffset s) with 0 by lia.
      reflexivity. }
    destruct F as [|F]; [discriminate|].
    rewrite upcoming_unfold in Hc.
    destruct (decode s) as [[b| | |] s1] eqn:Hd; try discriminate.
    destruct (decode_cursors Hb _ _ _ Hok Hd) as [Hok1 _].
    destruct b.
    + pose proof (decode_true _ _ Hd) as (_ & _ & He1).
      pose proof (decode_frame _ _ _ Hd) as (_ & _ & _ & _ & Hmono).
      destruct (endOfCompressedStream s) eqn:He; [rewrite (Hmono eq_refl) in He1; discriminate|].
      rewrite He1 in Hc.
      destruct (coming F s1) as [out1|] eqn:Hc1; [|discriminate].
      inversion Hc; subst out.
      apply upcoming_more in Hc1.
      destruct (IH _ _ _ _ _ _ _ _ _ Hok1 Hlen Htot H Hc1) as (out' & Hc' & Heq).
      exists out'. split; [exact Hc'|]. rewrite Hnone. exact Heq.
    + inversion H; subst t s1 dest'. clear H.
      assert (Hnone' : staged s' = [] \/ endOfCompressedStream s' = false).
      { apply decode_false in Hd.
        destruct Hd as [(_ & D2 & D3 & D4) | (D1 & _)]; [left | right; exact D1].
        unfold staged. rewrite D2, D3, D4. exact Hnone. }
      destruct (endOfCompressedStream s) eqn:He.
      * inversion Hc; subst out.
        apply decode_frame in Hd. destruct Hd as (_ & _ & _ & _ & Hmono).
        exists []. rewrite upcoming_unfold, (Hmono He).
        split; [reflexivity|].
        destruct Hnone' as [-> | E]; [now rewrite Hnone|].
        rewrite (Hmono He) in E. discriminate.
      * destruct (endOfCompressedStream s') eqn:He'.
        -- inversion Hc; subst out. exists [].
           rewrite upcoming_unfold, He'. split; [reflexivity|].
           destruct Hnone' as [-> | E]; [now rewrite Hnone | discriminate].
        -- destruct (coming F s') as [out1|] eqn:Hc1; [|discriminate].
           inversion Hc; subst out. exists out1.
           split; [exact (upcoming_more _ _ _ Hc1)|].
           now rewrite Hnone.
Qed.

Lemma fill_cursors (Hb : codec_bounded ZSTD_decompressStream)
      (s s' : Source) (b b' : TupleBuffer) (r : FillTupleBufferResult) :
  zstd_mode s ->
  cursors_ok s ->
  fill s b = (Returns r, s', b') ->
  zstd_mode s' /\ cursors_ok s'.
Proof.
  intros Hz Hok H.
  pose proof (fill_returns _ _ _ _ _ H) as (_ & _ & _ & _ & _ & Hct).
  split; [unfold zstd_mode in *; congruence|].
  rewrite (fill_zstd s b Hz) in H.
  destruct (loop _ _ _ _ _) as [[o s1] d1] eqn:Hl.
  destruct o as [t| | |]; try discriminate.
  apply (fillLoop_cursors Hb) in Hl; [|exact Hok]. destruct Hl as [Hok1 _].
  cbv zeta in H. destruct (t =? 0); inversion H; subst; exact Hok1.
Qed.

(** An [eos] from a destination with room leaves nothing staged. *)
Lemma fill_eos_nothing_staged (s s' : Source) (b b' : TupleBuffer) :
  zstd_mode s ->
  1 <= getBufferSize b ->
  fill s b = (Returns eos, s', b') ->
  staged s' = [].
Proof.
  intros Hz Hk H. rewrite (fill_zstd s b Hz) in H.
  destruct (loop _ _ _ _ _) as [[o s1] d1] eqn:Hl.
  destruct o as [t| | |]; try discriminate.
  cbv zeta in H. destruct (t =? 0) eqn:E; [|discriminate].
  apply Nat.eqb_eq in E. subst t.
  apply fillLoop_zero in Hl; [|lia]. destruct Hl as (Hd & Hc & _).
  inversion H; subst s'. unfold staged. fields.
  apply decode_false in Hd.
  destruct Hd as [(_ & D2 & D3 & _) | (_ & D2 & D3)].
  - replace (decompressedSize s1 - decompressedOffset s1) with 0 by lia.
    reflexivity.
  - rewrite D2, D3. reflexivity.
Qed.

(** Conservation through one call. *)
Lemma fill_stream (Hb : codec_bounded ZSTD_decompressStream)
        (s s' : Source) (b b' : TupleBuffer) (r : FillTupleBufferResult)
        (F : nat) (out : list byte) :
  zstd_mode s ->
  cursors_ok s ->
  fill s b = (Returns r, s', b') ->
  coming F s = Some out ->
  exists out',
    coming F s' = Some out' /\
    staged s ++ out = delivered r b' ++ staged s' ++ out'.
Proof.
  intros Hz Hok H Hc. rewrite (fill_zstd s b Hz) in H.
  destruct (loop _ _ _ _ _) as [[o s1] d1] eqn:Hl.
  destruct o as [t| | |]; try discriminate.
  destruct (fillLoop_stream Hb _ _ _ _ _ _ _ _ _ _ Hok eq_refl (Nat.le_0_l _) Hl Hc)
    as (out' & Hc' & Heq).
  exists out'.
  assert (E : s' = set_totalNumBytesRead (totalNumBytesRead s1 + t) s1 /\
              b' = mkTupleBuffer d1 /\ numBytes r = t).
  { cbv zeta in H. destruct (t =? 0) eqn:E0; inversion H; subst; auto.
    apply Nat.eqb_eq in E0. auto. }
  destruct E as (-> & -> & Hn). split.
  - rewrite upcoming_set_total. exact Hc'.
  - unfold delivered. rewrite Hn. exact Heq.
Qed.

Lemma drain_stream (Hb : codec_bounded ZSTD_decompressStream) (fuel : nat) :
  forall k (s s' : Source) rs F out,
    zstd_mode s ->
    cursors_ok s ->
    1 <= k ->
    drains fuel k s = (Returns rs, s') ->
    coming F s = Some out ->
    exists out',
      coming F s' = Some out' /\
      staged s ++ out = concat (map snd rs) ++ out'.
Proof.
  induction fuel as [|fuel IH]; intros k s s' rs F out Hz Hok Hk H Hc;
    simpl in H; [discriminate|].
  destruct (fill s _) as [[o s1] b1] eqn:Hf.
  destruct o as [r| | |]; try discriminate.
  destruct (fill_stream Hb _ _ _ _ _ _ _ Hz Hok Hf Hc)
    as (out1 & Hc1 & Heq).
  destruct r as [|n].
  - inversion H; subst rs s1. exists out1. split; [exact Hc1|].
    rewrite Heq.
    assert (Hcap : 1 <= getBufferSize (mkTupleBuffer (repeat x00 k))).
    { unfold getBufferSize. cbn [memoryArea]. rewrite repeat_length. exact Hk. }
    rewrite (fill_eos_nothing_staged _ _ _ _ Hz Hcap Hf). reflexivity.
  - destruct (drains fuel k s1) as [[rs1| | |] s2] eqn:Hrec; try discriminate.
    inversion H; subst rs s2.
    destruct (fill_cursors Hb _ _ _ _ _ Hz Hok Hf) as [Hz1 Hok1].
    destruct (IH _ _ _ _ _ _ Hz1 Hok1 Hk Hrec Hc1) as (out' & Hc' & Heq').
    exists out'. split; [exact Hc'|].
    cbn [map snd concat]. rewrite Heq, <- app_assoc, Heq'. reflexivity.
Qed.

(** X1 (stream conservation, one call).  In zstd mode, with the cursor
    invariant and a codec that stays within its output space, a call that
    returns moves bytes from the front of the decoder's output stream into
    the destination and nothing else: the staged bytes followed by what the
    decoder still has to give are, before the call, the delivered bytes
    followed by the same after it.  No byte is lost, repeated or
    reordered. *)
Theorem fill_conserves_stream (Hb : codec_bounded ZSTD_decompressStream)
        (s s' : Source) (b b' : TupleBuffer) (r : FillTupleBufferResult)
        (F : nat) (out : list byte) :
  zstd_mode s ->
  cursors_ok s ->
  fill s b = (Returns r, s', b') ->
  coming F s = Some out ->
  exists out',
    coming F s' = Some out' /\
    staged s ++ out = delivered r b' ++ staged s' ++ out'.
Proof.
  exact (fill_stream Hb s s' b b' r F out).
Qed.

(** X2 (compressed session delivers the decoder's stream).  A zstd source
    is opened and drained with destinations of capacity [k >= 1].  If the
    drain ended with the compressed stream exhausted, the bytes delivered,
    concatenated in order, are exactly what the successive
    [decompressNextBlock] calls decode from the file, whatever [k] is. *)
Theorem zstd_drain_delivers_decoder_stream
        (Hb : codec_bounded ZSTD_decompressStream)
        (s0 s s' : Source) (fuel k F : nat)
        (rs : list (FillTupleBufferResult * list byte)) (out : list byte) :
  zstd_mode s0 ->
  opens s0 = (Returns tt, s) ->
  1 <= k ->
  coming F s = Some out ->
  drains fuel k s = (Returns rs, s') ->
  endOfCompressedStream s' = true ->
  concat (map snd rs) = out.
Proof.
  intros Hz Ho Hk Hc Hd He.
  assert (Hs : zstd_mode s /\ cursors_ok s /\ staged s = []).
  { destruct (open_zstd_inv _ _ Hz Ho) as (p & C & ctx & _ & _ & _ & ->).
    unfold zstd_mode, cursors_ok, staged.
    cbn [compressionType decompressedOffset decompressedSize decompressedBuffer].
    repeat split; auto; lia. }
  destruct Hs as (Hzs & Hok & Hst).
  destruct (drain_stream Hb _ _ _ _ _ _ _ Hzs Hok Hk Hd Hc) as (out' & Hc' & Heq).
  rewrite Hst in Heq. cbn [app] in Heq.
  destruct F as [|F]; [discriminate|].
  rewrite upcoming_unfold, He in Hc'. inversion Hc'; subst out'.
  now rewrite app_nil_r in Heq.
Qed.

(** *** Uncompressed mode, one call *)

(** X4 (uncompressed fill is maximal and conserves the stream).  In
    uncompressed mode, on a stream that has not failed before its end, the
    bytes a call delivers followed by the bytes left in the stream are the
    bytes that were in the stream; a result shorter than the destination
    means the stream is at its end; and the stream is again one that has
    not failed before its end. *)
Theorem raw_fill_is_maximal (s s' : Source) (b b' : TupleBuffer)
        (r : FillTupleBufferResult) :
  ~ zstd_mode s ->
  (failbit (inputFile s) = true -> rest (inputFile s) = []) ->
  fill s b = (Returns r, s', b') ->
  delivered r b' ++ rest (inputFile s') = rest (inputFile s) /\
  (numBytes r < getBufferSize b ->
   rest (inputFile s') = [] /\ failbit (inputFile s') = true) /\
  (failbit (inputFile s') = true -> rest (inputFile s') = []).
Proof.
  intros Hz Hinv H. rewrite (fill_raw s b Hz) in H. cbv zeta in H.
  unfold ifstream_read in H.
  destruct (failbit (inputFile s)) eqn:Hf.
  - specialize (Hinv eq_refl). cbn [fst snd length Nat.eqb] in H.
    inversion H; subst. unfold delivered. fields. rewrite Hinv.
    repeat split; auto.
  - cbn [fst snd] in H.
    set (k := getBufferSize b) in *.
    set (got := firstn k (rest (inputFile s))) in *.
    assert (Hr : numBytes r = length got /\ b' = mkTupleBuffer (write_at 0 got (memoryArea b))
                 /\ inputFile s' = mkIfstream (is_open (inputFile s))
                                     (skipn k (rest (inputFile s))) (length got <? k)).
    { destruct (length got =? 0) eqn:E; inversion H; subst; fields; auto.
      apply Nat.eqb_eq in E. auto. }
    destruct Hr as (Hn & -> & Hin). rewrite Hin. unfold delivered.
    cbn [rest failbit memoryArea]. rewrite Hn, firstn_write_at_0.
    assert (Hlen : length got = Nat.min k (length (rest (inputFile s))))
      by (unfold got; apply length_firstn).
    split; [apply firstn_skipn|]. split.
    + intros Hlt. split; [apply skipn_all2; lia | apply Nat.ltb_lt; lia].
    + intros Hlt. apply Nat.ltb_lt in Hlt. apply skipn_all2. lia.
Qed.

(** *** The destination *)

Lemma skipn_write_at (off t : nat) (bytes buf : list byte) :
  off <= length buf ->
  off + length bytes <= t ->
  skipn t (write_at off bytes buf) = skipn t buf.
Proof.
  intros Hoff Ht. unfold write_at.
  rewrite !skipn_app, length_firstn, Nat.min_l by exact Hoff.
  rewrite (skipn_all2 (firstn off buf)) by (rewrite length_firstn; lia).
  rewrite (skipn_all2 bytes) by lia.
  rewrite skipn_skipn. cbn [app]. f_equal. lia.
Qed.

Lemma fillLoop_rest_of_destination (fuel : nat) :
  forall bufferSize (s s' : Source) dest dest' total t,
    length dest = bufferSize ->
    total <= bufferSize ->
    loop fuel bufferSize s dest total = (Returns t, s', dest') ->
    skipn t dest' = skipn t dest.
Proof.
  induction fuel as [|fuel IH]; intros bufferSize s s' dest dest' total t Hlen Htot H;
    simpl in H; [discriminate|].
  destruct (total <? bufferSize) eqn:Hlt.
  2:{ inversion H; subst. reflexivity. }
  apply Nat.ltb_lt in Hlt.
  destruct (decompressedOffset s <? decompressedSize s).
  - pose proof (fillLoop_total _ _ _ _ _ _ _ _ H) as [Hge _].
    assert (Hcl : length (firstn (Nat.min (decompressedSize s - decompressedOffset s)
                                    (bufferSize - total))
                            (skipn (decompressedOffset s) (decompressedBuffer s)))
                  <= Nat.min (decompressedSize s - decompressedOffset s)
                       (bufferSize - total))
      by apply firstn_le_length.
    apply IH in H.
    + rewrite H. apply skipn_write_at; lia.
    + rewrite length_write_at; [exact Hlen | lia].
    + lia.
  - destruct (decode s) as [[[|]| | |] s1]; try discriminate.
    + exact (IH _ _ _ _ _ _ _ Hlen Htot H).
    + inversion H; subst. reflexivity.
Qed.

(** X5 (the destination is written in its delivered prefix only).  In both
    modes a call that returns [r] keeps the size of the destination, reports
    no more bytes than it holds, and leaves every byte after the first
    [numBytes r] as the caller supplied it. *)
Theorem fill_writes_only_the_delivered_prefix (s s' : Source) (b b' : TupleBuffer)
        (r : FillTupleBufferResult) :
  fill s b = (Returns r, s', b') ->
  getBufferSize b' = getBufferSize b /\
  numBytes r <= getBufferSize b /\
  skipn (numBytes r) (memoryArea b') = skipn (numBytes r) (memoryArea b).
Proof.
  intros H.
  pose proof (fill_returns _ _ _ _ _ H) as (_ & _ & Hle & Hsz & _).
  split; [exact Hsz|]. split; [exact Hle|].
  destruct (String.eqb_spec (compressionType s) "zstd") as [Hz|Hz].
  - rewrite (fill_zstd s b Hz) in H.
    destruct (loop _ _ _ _ _) as [[o s1] d1] eqn:Hl.
    destruct o as [t| | |]; try discriminate.
    apply fillLoop_rest_of_destination in Hl; [|reflexivity | lia].
    cbv zeta in H. destruct (t =? 0) eqn:E; inversion H; subst; cbn [numBytes memoryArea].
    + apply Nat.eqb_eq in E. subst t. exact Hl.
    + exact Hl.
  - rewrite (fill_raw s b Hz) in H. cbv zeta in H.
    destruct (ifstream_read (inputFile s) (getBufferSize b)) as [got f] eqn:Hr.
    apply ifstream_read_length in Hr. cbn [fst snd] in H.
    destruct (length got =? 0) eqn:E; inversion H; subst; cbn [numBytes memoryArea].
    + apply Nat.eqb_eq, length_zero_iff_nil in E. subst got.
      now rewrite write_at_nil.
    + apply skipn_write_at; simpl; lia.
Qed.

(** *** The exhausted flag *)

(** X9 ([endOfCompressedStream] is sticky).  Once set, the flag stays set
    through every [decompressNextBlock] and every [fillTupleBuffer],
    however the call ends. *)
Theorem exhausted_flag_is_sticky :
  (forall (s s' : FileSource DCtx) o,
      decompressNextBlock ZSTD_decompressStream s = (o, s') ->
      endOfCompressedStream s = true -> endOfCompressedStream s' = true) /\
  (forall (s s' : FileSource DCtx) b b' o,
      fillTupleBuffer ZSTD_decompressStream s b = (o, s', b') ->
      endOfCompressedStream s = true -> endOfCompressedStream s' = true).
Proof.
  split.
  - intros s s' o H. apply decode_frame in H. apply H.
  - intros s s' b b' o H He.
    destruct (String.eqb_spec (compressionType s) "zstd") as [Hz|Hz].
    + rewrite (fill_zstd s b Hz) in H.
      destruct (loop _ _ _ _ _) as [[o1 s1] d1] eqn:Hl.
      apply fillLoop_frame in Hl. destruct Hl as (_ & _ & _ & _ & Hm).
      specialize (Hm He).
      destruct o1 as [t| | |]; [cbv zeta in H; destruct (t =? 0)| | |];
        inversion H; subst; exact Hm.
    + rewrite (fill_raw s b Hz) in H. cbv zeta in H.
      inversion H; subst. exact He.
Qed.

(** *** The lifecycle *)

Lemma close_freeing_close (s : Source) : snd (close_freeing s) = close s.
Proof.
  unfold close_freeing, close. cbv zeta.
  destruct (zstdContext (set_inputFile (ifstream_close (inputFile s)) s));
    reflexivity.
Qed.

Lemma close_times_released (n : nat) :
  forall s : Source,
    zstdContext s = None ->
    fst (close_times n s) = [] /\ zstdContext (snd (close_times n s)) = None /\
    (is_open (inputFile s) = false ->
     is_open (inputFile (snd (close_times n s))) = false).
Proof.
  induction n as [|n IH]; intros s Hctx; [simpl; auto|].
  cbn [close_times]. unfold close_freeing. cbv zeta.
  cbn [zstdContext set_inputFile]. rewrite Hctx.
  specialize (IH (set_inputFile (ifstream_close (inputFile s)) s) Hctx).
  destruct (close_times n _) as [freed s2]. cbn [fst snd app] in *.
  destruct IH as (I1 & I2 & I3). repeat split; auto.
  intros _. apply I3. cbn [inputFile set_inputFile]. unfold ifstream_close.
  now destruct (is_open (inputFile s)).
Qed.

(** X6 (close releases once).  However many times [close] is called in a
    row, at least once, the codec context the source held is handed to
    [ZSTD_freeDCtx] exactly once and nothing else is; afterwards no stream
    is open and no context is held; the path, the compression type and the
    byte counter are as they were. *)
Theorem close_releases_once (n : nat) (s : Source) :
  fst (close_times (S n) s)
  = match zstdContext s with Some ctx => [ctx] | None => [] end /\
  is_open (inputFile (snd (close_times (S n) s))) = false /\
  zstdContext (snd (close_times (S n) s)) = None /\
  snd (close_times 1 s) = close s /\
  filePath (close s) = filePath s /\
  compressionType (close s) = compressionType s /\
  totalNumBytesRead (close s) = totalNumBytesRead s.
Proof.
  assert (Hone : snd (close_times 1 s) = close s).
  { cbn [close_times]. rewrite <- close_freeing_close.
    destruct (close_freeing s). reflexivity. }
  assert (Hc : zstdContext (close s) = None /\ is_open (inputFile (close s)) = false).
  { destruct s as [fp ct [o r fl] [ctx|] cb db off sz e c]; destruct o; split;
      reflexivity. }
  destruct Hc as [Hctx Hop].
  destruct (close_times_released n (close s) Hctx) as (R1 & R2 & R3).
  cbn [close_times].
  pose proof (close_freeing_close s) as Hfc.
  assert (Hfr : fst (close_freeing s)
                = match zstdContext s with Some ctx => [ctx] | None => [] end).
  { unfold close_freeing. cbv zeta. cbn [zstdContext set_inputFile].
    destruct (zstdContext s); reflexivity. }
  destruct (close_freeing s) as [freed s1]. cbn [fst snd] in *. subst s1.
  destruct (close_times n (close s)) as [freed' s2]. cbn [fst snd] in *.
  rewrite R1, app_nil_r.
  repeat split; auto.
  - destruct s as [fp ct inf [ctx|] cb db off sz e c]; reflexivity.
  - destruct s as [fp ct inf [ctx|] cb db off sz e c]; reflexivity.
  - destruct s as [fp ct inf [ctx|] cb db off sz e c]; reflexivity.
Qed.

(** With nothing left in the stream [decompressNextBlock] reports "no
    data" without calling the codec. *)
Lemma decode_no_input (s : Source) :
  rest (inputFile s) = [] ->
  exists s',
    decode s = (Returns false, s') /\
    rest (inputFile s') = [] /\
    zstdContext s' = zstdContext s /\
    decompressedOffset s' = decompressedOffset s /\
    decompressedSize s' = decompressedSize s.
Proof.
  intros Hr. destruct (decode s) as [o s'] eqn:H.
  assert (Hread : forall n, fst (ifstream_read (inputFile s) n) = [] /\
                            rest (snd (ifstream_read (inputFile s) n)) = []).
  { intros n. unfold ifstream_read. rewrite Hr.
    destruct (failbit (inputFile s)); cbn [fst snd rest];
      [auto | now rewrite firstn_nil, skipn_nil]. }
  apply decode_cases in H.
  destruct H as [(_ & -> & ->) | [(_ & f & Hf & -> & ->)
                                 | (_ & got & f & _ & _ & Hf & Hne & _)]].
  - exists s. auto.
  - eexists. split; [reflexivity|]. fields.
    specialize (Hread (length (compressedBuffer s))). rewrite Hf in Hread.
    cbn [fst snd] in Hread. destruct Hread as [_ Hrest].
    repeat split; exact Hrest.
  - specialize (Hread (length (compressedBuffer s))). rewrite Hf in Hread.
    cbn [fst snd] in Hread. destruct Hread as [E _]. congruence.
Qed.

Lemma fillLoop_no_input (fuel bufferSize : nat) (s : Source) (dest : list byte)
      (total : nat) :
  rest (inputFile s) = [] ->
  exists t s' dest',
    loop (S (S (S fuel))) bufferSize s dest total = (Returns t, s', dest') /\
    t <= total + (decompressedSize s - decompressedOffset s) /\
    zstdContext s' = zstdContext s.
Proof.
  intros Hr. cbn [fillLoop].
  destruct (total <? bufferSize) eqn:Hlt; [|eexists _, _, _; repeat split; lia].
  apply Nat.ltb_lt in Hlt.
  destruct (decompressedOffset s <? decompressedSize s) eqn:Hav.
  - apply Nat.ltb_lt in Hav.
    set (n := Nat.min (decompressedSize s - decompressedOffset s)
                (bufferSize - total)).
    destruct (total + n <? bufferSize) eqn:Hlt2;
      [|eexists _, _, _; repeat split; unfold n; lia].
    apply Nat.ltb_lt in Hlt2.
    cbn [decompressedOffset decompressedSize set_decompressedOffset].
    assert (Hfull : (decompressedOffset s + n <? decompressedSize s) = false)
      by (apply Nat.ltb_ge; unfold n in *; lia).
    rewrite Hfull.
    destruct (decode_no_input (set_decompressedOffset (decompressedOffset s + n) s) Hr)
      as (s' & -> & _ & Hctx & _).
    eexists _, _, _. split; [reflexivity|]. split; [unfold n; lia | exact Hctx].
  - destruct (decode_no_input s Hr) as (s' & -> & _ & Hctx & _).
    eexists _, _, _. split; [reflexivity|]. split; [lia | exact Hctx].
Qed.

(** X7 (calls after close).  After [close] a call of [fillTupleBuffer]
    always returns and never reaches the codec, whose context is gone: in
    uncompressed mode it returns [eos]; in zstd mode it hands out no more
    than the bytes that were still staged. *)
Theorem fill_after_close (s : Source) (b : TupleBuffer) :
  exists r s' b',
    fill (close s) b = (Returns r, s', b') /\
    (~ zstd_mode s -> r = eos) /\
    numBytes r <= decompressedSize s - decompressedOffset s /\
    zstdContext s' = None.
Proof.
  assert (Hc : rest (inputFile (close s)) = [] /\ zstdContext (close s) = None /\
               compressionType (close s) = compressionType s /\
               decompressedSize (close s) = decompressedSize s /\
               decompressedOffset (close s) = decompressedOffset s).
  { destruct s as [fp ct [o r fl] [ctx|] cb db off sz e c]; destruct o;
      repeat split. }
  destruct Hc as (Hr & Hctx & Hct & Hsz & Hoff).
  destruct (String.eqb_spec (compressionType s) "zstd") as [Hz|Hz].
  - assert (Hz' : zstd_mode (close s)) by (unfold zstd_mode; congruence).
    rewrite (fill_zstd _ b Hz').
    destruct (getBufferSize b) as [|k] eqn:Hk.
    + cbn. eexists _, _, _. split; [reflexivity|].
      cbn [numBytes zstdContext set_totalNumBytesRead].
      repeat split; try lia; try contradiction; exact Hctx.
    + unfold fillFuel. replace (2 * S k + 1) with (S (S (S (2 * k)))) by lia.
      destruct (fillLoop_no_input (2 * k) (S k) (close s) (memoryArea b) 0 Hr)
        as (t & s1 & d1 & -> & Ht & Hc1).
      cbv zeta. rewrite Hsz, Hoff in Ht.
      destruct (t =? 0) eqn:E; eexists _, _, _; (split; [reflexivity|]);
        cbn [numBytes zstdContext set_totalNumBytesRead];
        repeat split; try lia; try contradiction; congruence.
  - assert (Hz' : ~ zstd_mode (close s)) by (unfold zstd_mode; congruence).
    rewrite (fill_raw _ b Hz'). cbv zeta.
    assert (Hread : fst (ifstream_read (inputFile (close s)) (getBufferSize b)) = []).
    { unfold ifstream_read. rewrite Hr.
      destruct (failbit (inputFile (close s))); cbn [fst];
        [reflexivity | apply firstn_nil]. }
    rewrite Hread. cbn [length Nat.eqb].
    eexists _, _, _. split; [reflexivity|].
    cbn [numBytes zstdContext set_totalNumBytesRead set_inputFile].
    repeat split; auto; lia.
Qed.

(** X8 (when [open] succeeds).  [open] returns exactly when the path
    resolves to a file that can be read and the compression type is
    ["zstd"] with a codec context allocated, or ["none"], or empty;
    otherwise it throws.  Either way it leaves the path, the compression
    type and the byte counter alone: reopening does not reset the
    counter. *)
Theorem open_succeeds_iff (s : Source) :
  ((exists s', opens s = (Returns tt, s')) <->
   (exists p C, realpath (filePath s) = Some p /\ readable p = Some C) /\
   (compressionType s = "zstd" /\ ZSTD_createDCtx <> None
    \/ compressionType s = "none" \/ compressionType s = "")) /\
  (forall o s',
      opens s = (o, s') ->
      completes o /\
      filePath s' = filePath s /\
      compressionType s' = compressionType s /\
      totalNumBytesRead s' = totalNumBytesRead s).
Proof.
  destruct (realpath (filePath s)) as [p|] eqn:Hp.
  2:{ rewrite (open_unreachable_file s (or_introl Hp)). split.
      - split; [intros (s' & H); discriminate|].
        intros ((p & C & Habs & _) & _). discriminate.
      - intros o s' H. inversion H; subst. repeat split. }
  destruct (readable p) as [C|] eqn:HC.
  2:{ rewrite (open_unreachable_file s)
        by (right; exists p; split; [exact Hp | exact HC]).
      split.
      - split; [intros (s' & H); discriminate|].
        intros ((p' & C & Hp' & Habs) & _). congruence.
      - intros o s' H. inversion H; subst. repeat split. }
  assert (Hfile : exists p0 C0, Some p = Some p0 /\ readable p0 = Some C0)
    by (exists p, C; split; [reflexivity | exact HC]).
  destruct (String.eqb_spec (compressionType s) "zstd") as [Hz|Hz].
  - destruct context_or_none as [[ctx Hctx] | Hctx].
    + rewrite (open_zstd s p C ctx Hp HC Hz Hctx). split.
      * split; [|intros _; eexists; reflexivity].
        intros _. split; [exact Hfile|]. left. split; [exact Hz | congruence].
      * intros o s' H. inversion H; subst. repeat split.
    + rewrite (open_zstd_no_context s p C Hp HC Hz Hctx). split.
      * split; [intros (s' & H); discriminate|].
        intros (_ & [[_ Habs] | [Hn | Hn]]); [congruence | |];
          rewrite Hz in Hn; discriminate.
      * intros o s' H. inversion H; subst. repeat split.
  - destruct (String.eqb_spec (compressionType s) "none") as [Hn|Hn].
    { rewrite (open_raw s p C Hp HC (or_introl Hn)). split.
      - split; [|intros _; eexists; reflexivity].
        intros _. split; [exact Hfile|]. right. left. exact Hn.
      - intros o s' H. inversion H; subst. repeat split. }
    destruct (String.eqb_spec (compressionType s) "") as [He|He].
    { rewrite (open_raw s p C Hp HC (or_intror He)). split.
      - split; [|intros _; eexists; reflexivity].
        intros _. split; [exact Hfile|]. right. right. exact He.
      - intros o s' H. inversion H; subst. repeat split. }
    rewrite (open_unsupported s p C Hp HC Hz Hn He). split.
    + split; [intros (s' & H); discriminate|].
      intros (_ & [[Hz' _] | [Hn' | He']]); contradiction.
    + intros o s' H. inversion H; subst. repeat split.
Qed.

End Properties.

(** * The systest registrars *)

Section RegistrarProperties.

Variable KEY : string.
Variable OtherMembers : Type.

Local Abbreviation Config := (PhysicalSourceConfig OtherMembers).

Lemma append_to_files (path : string) (text : list byte) (fs : FileSystem)
      (old : list byte) :
  files fs path = Some old ->
  files (append_to path text fs) path = Some (old ++ text) /\
  (forall p, p <> path -> files (append_to path text fs) p = files fs p).
Proof.
  intros H. unfold append_to. cbn [files]. split.
  - now rewrite String.eqb_refl, H.
  - intros p Hp. apply String.eqb_neq in Hp. now rewrite Hp.
Qed.

Lemma write_tuples_files (path : string) (ts : list string) :
  forall (fs : FileSystem) (old : list byte),
    files fs path = Some old ->
    files (write_tuples path ts fs) path = Some (old ++ tuple_lines ts) /\
    (forall p, p <> path -> files (write_tuples path ts fs) p = files fs p).
Proof.
  induction ts as [|t ts IH]; intros fs old H.
  - cbn. now rewrite app_nil_r.
  - cbn [write_tuples].
    destruct (append_to_files path (list_byte_of_string t) fs old H) as [A1 A2].
    destruct (append_to_files path [x0a] _ _ A1) as [B1 B2].
    destruct (IH _ _ B1) as [C1 C2]. split.
    + rewrite C1. unfold tuple_lines. cbn [map concat].
      now rewrite <- !app_assoc.
    + intros p Hp. rewrite (C2 p Hp), (B2 p Hp). exact (A2 p Hp).
Qed.

(** What [RegisterFileInlineData] does, case by case. *)
Lemma inline_data_cases (fs : FileSystem)
        (args : InlineDataRegistryArguments OtherMembers) :
  let config := inlinePhysicalSourceConfig args in
  let path := inlineTestFilePath args in
  (sourceConfig config KEY <> None ->
   exists e, RegisterFileInlineData KEY fs args = (RejectedConfig e, fs)) /\
  (sourceConfig config KEY = None -> creatable fs path = false ->
   exists msg, RegisterFileInlineData KEY fs args = (TestException msg, fs)) /\
  (sourceConfig config KEY = None -> creatable fs path = true ->
   exists config' fs',
     RegisterFileInlineData KEY fs args = (RegisteredAs config', fs') /\
     sourceConfig config' KEY = Some path /\
     (forall k, k <> KEY -> sourceConfig config' k = sourceConfig config k) /\
     otherMembers config' = otherMembers config /\
     files fs' path = Some (tuple_lines (tuples args)) /\
     (forall p, p <> path -> files fs' p = files fs p)).
Proof.
  intros config path. unfold RegisterFileInlineData, contains.
  fold config. fold path. split; [|split].
  - intros H. destruct (sourceConfig config KEY); [|congruence].
    eexists. reflexivity.
  - intros H Hc. rewrite H, Hc. eexists. reflexivity.
  - intros H Hc. rewrite H, Hc. cbv zeta.
    destruct (write_tuples_files path (tuples args) (truncate path fs) [])
      as [W1 W2].
    { unfold truncate. cbn [files]. now rewrite String.eqb_refl. }
    eexists _, _. split; [reflexivity|].
    cbn [sourceConfig otherMembers]. unfold try_emplace.
    rewrite String.eqb_refl, H. repeat split.
    + intros k Hk. apply String.eqb_neq in Hk. now rewrite Hk.
    + exact W1.
    + intros p Hp. rewrite (W2 p Hp). unfold truncate. cbn [files].
      apply String.eqb_neq in Hp. now rewrite Hp.
Qed.

(** X10 (inline data registrar).  If the configuration already has a file
    path the call is rejected with [InvalidConfigParameter]; if not, and
    the test file cannot be opened, it throws [TestException]; in both cases
    no file is touched.  Otherwise it returns the configuration with the
    file path set to the test file and every other parameter and member
    kept, and the test file holds exactly the tuples, each followed by a
    line feed, while every other file is as it was. *)
Theorem inline_data_is_registered (fs : FileSystem)
        (args : InlineDataRegistryArguments OtherMembers) :
  let config := inlinePhysicalSourceConfig args in
  let path := inlineTestFilePath args in
  (sourceConfig config KEY <> None ->
   exists e, RegisterFileInlineData KEY fs args = (RejectedConfig e, fs)) /\
  (sourceConfig config KEY = None -> creatable fs path = false ->
   exists msg, RegisterFileInlineData KEY fs args = (TestException msg, fs)) /\
  (sourceConfig config KEY = None -> creatable fs path = true ->
   exists config' fs',
     RegisterFileInlineData KEY fs args = (RegisteredAs config', fs') /\
     sourceConfig config' KEY = Some path /\
     (forall k, k <> KEY -> sourceConfig config' k = sourceConfig config k) /\
     otherMembers config' = otherMembers config /\
     files fs' path = Some (tuple_lines (tuples args)) /\
     (forall p, p <> path -> files fs' p = files fs p)).
Proof.
  exact (inline_data_cases fs args).
Qed.

(** X11 (the two registrars agree).  Given the same configuration and test
    file, with the test file one that can be opened, the file data registrar
    and the inline data registrar reject the same configurations, those
    that already have a file path, and return the same configuration
    otherwise. *)
Theorem registrars_agree (fs : FileSystem) (config : Config) (path : string)
        (ts : list string) :
  creatable fs path = true ->
  match RegisterFileFileData KEY (mkFileDataRegistryArguments config path),
        fst (RegisterFileInlineData KEY fs
               (mkInlineDataRegistryArguments config path ts)) with
  | RegisteredAs c1, RegisteredAs c2 => c1 = c2 /\ sourceConfig config KEY = None
  | RejectedConfig _, RejectedConfig _ => sourceConfig config KEY <> None
  | _, _ => False
  end.
Proof.
  intros Hc. unfold RegisterFileFileData, RegisterFileInlineData, contains, emplace.
  cbn [filePhysicalSourceConfig fileTestFilePath inlinePhysicalSourceConfig
       inlineTestFilePath tuples].
  destruct (sourceConfig config KEY) eqn:E.
  - cbn [fst]. discriminate.
  - rewrite Hc. cbn [fst]. split; reflexivity.
Qed.

(** X12 (inline data round trip).  The tuples registered as inline data
    come back through the file source: a source built on the path the
    registrar stored in the configuration, opened uncompressed against the
    files the registrar left and drained with destinations of capacity
    [k >= 1], delivers exactly the tuples, each followed by a line feed,
    then [eos]. *)
Theorem inline_data_round_trip
        (DCtx : Type)
        (ZSTD_decompressStream : DCtx -> nat -> list byte -> DStreamResult DCtx)
        (ZSTD_createDCtx : option DCtx) (inSize outSize : nat)
        (realpath : string -> option string) (errno : string)
        (fs : FileSystem) (args : InlineDataRegistryArguments OtherMembers)
        (k : nat) :
  let path := inlineTestFilePath args in
  let content := tuple_lines (tuples args) in
  1 <= k ->
  sourceConfig (inlinePhysicalSourceConfig args) KEY = None ->
  creatable fs path = true ->
  realpath path = Some path ->
  exists config' fs' s1 s2 rs,
    RegisterFileInlineData KEY fs args = (RegisteredAs config', fs') /\
    sourceConfig config' KEY = Some path /\
    open ZSTD_createDCtx inSize outSize realpath (files fs') errno
      (FileSource_new DCtx path "none") = (Returns tt, s1) /\
    drain ZSTD_decompressStream (S (length content)) k s1
    = (Returns (rs ++ [(eos, [])]), s2) /\
    Forall (fun r => fst r <> eos) rs /\
    concat (map snd rs) = content.
Proof.
  intros path content Hk Hkey Hc Hreal.
  destruct (inline_data_cases fs args) as (_ & _ & Hreg).
  destruct (Hreg Hkey Hc) as (config' & fs' & Hr & Hcfg & _ & _ & Hfile & _).
  fold path in Hcfg, Hfile. fold content in Hfile.
  set (s0 := FileSource_new DCtx path "none").
  pose proof (open_raw DCtx ZSTD_createDCtx inSize outSize realpath (files fs')
                errno s0 path content Hreal Hfile (or_introl eq_refl)) as Ho.
  set (s1 := set_inputFile (mkIfstream true content false) s0) in *.
  assert (Hz : ~ zstd_mode s1) by (unfold zstd_mode; cbn; discriminate).
  destruct (drain_raw DCtx ZSTD_decompressStream (S (length content)) k s1 content
              Hk Hz eq_refl) as (s2 & Hd & _); [discriminate | lia |].
  exists config', fs', s1, s2,
    (map chunk_result (chunksOf (S (length content)) k content)).
  repeat split; auto.
  - apply Forall_forall. intros r Hin. apply in_map_iff in Hin.
    destruct Hin as (c & <- & _). discriminate.
  - rewrite map_map. cbn [chunk_result snd]. rewrite map_id.
    apply concat_chunksOf; [exact Hk | lia].
Qed.

End RegistrarProperties.

(** * URLDownloader *)

Section DownloaderProperties.

Import URLDownloader.

Variable httpGet : Client -> Z -> string -> HttpResult.
Variable httpHead : Client -> Z -> string -> HttpResult.
Variable parent_path : string -> string.
Variable create_directories_error : string -> option string.
Variable opens_for_writing : string -> bool.
Variable write_succeeds : string -> list byte -> bool.
Variable format_int : Z -> string.

Local Abbreviation download :=
  (downloadToFile httpGet parent_path create_directories_error
                  opens_for_writing write_succeeds format_int).
Local Abbreviation reachable_ := (isReachable httpHead).

Lemma request_target_not_empty (url : Url) : request_target url <> "".
Proof.
  unfold request_target.
  destruct (String.eqb_spec (path url) "") as [E|E];
    destruct (negb (String.eqb (query url) "")); try discriminate;
    try exact E.
  destruct (path url); [congruence | discriminate].
Qed.

Lemma default_port_not_zero (url : Url) (default : nat) :
  default <> 0 -> default_port url default <> 0.
Proof.
  intros H. unfold default_port.
  destruct (Nat.eqb_spec (port_number url) 0); assumption.
Qed.

(** The two functions, with the request target and the port named. *)
Lemma downloadToFile_unfold (url : Url) (targetPath : string) (t : Z) :
  download url targetPath t
  = match client_for url with
    | None =>
        (Raise (runtime_error ("Unsupported URL scheme: " ++ scheme url)%string), [])
    | Some client =>
        match httpGet client t (request_target url) with
        | HttpError error =>
            (Raise (runtime_error
                      ("Failed to download from URL: " ++ toString url
                       ++ " (error: " ++ error ++ ")")%string),
             [Request GET client t (request_target url)])
        | HttpResponse status body header =>
            if negb (Z.eqb status 200) then
              (Raise (runtime_error
                        ("HTTP error " ++ format_int status
                         ++ " while downloading from URL: " ++ toString url)%string),
               [Request GET client t (request_target url)])
            else
              match create_directories_error (parent_path targetPath) with
              | Some what =>
                  (Raise (filesystem_error what),
                   [Request GET client t (request_target url);
                    CreateDirectories (parent_path targetPath)])
              | None =>
                  if negb (opens_for_writing targetPath) then
                    (Raise (runtime_error
                              ("Failed to open file for writing: " ++ targetPath)%string),
                     [Request GET client t (request_target url);
                      CreateDirectories (parent_path targetPath);
                      OpenForWriting targetPath])
                  else if negb (write_succeeds targetPath body) then
                    (Raise (runtime_error
                              ("Failed to write to file: " ++ targetPath)%string),
                     [Request GET client t (request_target url);
                      CreateDirectories (parent_path targetPath);
                      OpenForWriting targetPath;
                      WriteBytes targetPath body])
                  else
                    (Ok (mkDownloadResult targetPath (length body)
                           (header "Content-Type")),
                     [Request GET client t (request_target url);
                      CreateDirectories (parent_path targetPath);
                      OpenForWriting targetPath;
                      WriteBytes targetPath body])
              end
        end
    end.
Proof.
  unfold downloadToFile, client_for, request_target, default_port.
  destruct (String.eqb (scheme url) "https");
    [|destruct (String.eqb (scheme url) "http"); [|reflexivity]];
    cbv zeta;
    (destruct (httpGet _ _ _) as [e|st body hdr]; [reflexivity|]);
    (destruct (negb (st =? 200)%Z); [reflexivity|]);
    (destruct (create_directories_error _); [reflexivity|]);
    (destruct (negb (opens_for_writing _)); [reflexivity|]);
    destruct (negb (write_succeeds _ _)); reflexivity.
Qed.

Lemma isReachable_unfold (url : Url) (t : Z) :
  reachable_ url t
  = match client_for url with
    | None => (false, [])
    | Some client =>
        (match httpHead client t (request_target url) with
         | HttpError _ => false
         | HttpResponse status _ _ => Z.leb 200 status && Z.ltb status 400
         end,
         [Request HEAD client t (request_target url)])
    end.
Proof.
  unfold isReachable, client_for, request_target, default_port.
  destruct (String.eqb (scheme url) "https");
    [|destruct (String.eqb (scheme url) "http"); [|reflexivity]];
    cbv zeta; destruct (httpHead _ _ _); reflexivity.
Qed.

Lemma client_for_cases (url : Url) :
  (client_for url = None /\ scheme url <> "https" /\ scheme url <> "http")
  \/ exists client,
      client_for url = Some client /\
      clientHost client = host url /\
      clientPort client <> 0 /\
      (tls client = true /\ scheme url = "https" /\
       clientPort client = default_port url 443
       \/ tls client = false /\ scheme url = "http" /\
          clientPort client = default_port url 80).
Proof.
  unfold client_for.
  destruct (String.eqb_spec (scheme url) "https") as [Hs|Hs].
  - right. eexists. split; [reflexivity|]. cbn. repeat split; auto.
    apply default_port_not_zero. discriminate.
  - destruct (String.eqb_spec (scheme url) "http") as [Hp|Hp].
    + right. eexists. split; [reflexivity|]. cbn. repeat split; auto.
      apply default_port_not_zero. discriminate.
    + left. auto.
Qed.

Lemma download_destinations (url : Url) (targetPath : string) (t : Z)
      (client : Client) :
  client_for url = Some client ->
  destinations (snd (download url targetPath t)) = [(client, request_target url)].
Proof.
  intros H. rewrite downloadToFile_unfold, H.
  destruct (httpGet _ _ _) as [e|st body hdr]; [reflexivity|].
  destruct (negb (st =? 200)%Z); [reflexivity|].
  destruct (create_directories_error _); [reflexivity|].
  destruct (negb (opens_for_writing _)); [reflexivity|].
  destruct (negb (write_succeeds _ _)); reflexivity.
Qed.

(** X13 (both functions address the same endpoint).  For every URL,
    [isReachable] and [downloadToFile] send their request, a HEAD and a GET,
    to the same client and target, and each sends one request, or none when
    the scheme is neither ["http"] nor ["https"].  The client is TLS exactly
    for ["https"], is bound to the URL's host, and to the URL's port or,
    when the URL names none, to 443 or 80; the target is never empty. *)
Theorem both_address_the_same_endpoint (url : Url) (targetPath : string)
        (t1 t2 : Z) :
  destinations (snd (reachable_ url t1))
  = destinations (snd (download url targetPath t2)) /\
  (destinations (snd (reachable_ url t1)) = []
   /\ scheme url <> "https" /\ scheme url <> "http"
   \/ exists client,
       destinations (snd (reachable_ url t1)) = [(client, request_target url)] /\
       request_target url <> "" /\
       clientHost client = host url /\
       clientPort client <> 0 /\
       (tls client = true /\ scheme url = "https" /\
        clientPort client = default_port url 443
        \/ tls client = false /\ scheme url = "http" /\
           clientPort client = default_port url 80)).
Proof.
  destruct (client_for_cases url) as [(Hc & H1 & H2) | (client & Hc & Hh & Hp & Hs)].
  - rewrite isReachable_unfold, downloadToFile_unfold, Hc.
    split; [reflexivity|]. left. auto.
  - rewrite (download_destinations url targetPath t2 client Hc).
    rewrite isReachable_unfold, Hc. cbn [snd destinations flat_map app].
    split; [reflexivity|]. right. exists client.
    split; [reflexivity|]. split; [apply request_target_not_empty|]. auto.
Qed.

(** X14 (no file is touched unless the server answered 200).  With a
    scheme other than ["http"] and ["https"] [downloadToFile] throws
    [runtime_error] and does nothing at all.  When the request fails, it
    throws [runtime_error] and touches no file.  Whenever a call touches
    the file system, its one request was a GET answered with status 200. *)
Theorem download_touches_files_only_after_200 (url : Url) (targetPath : string)
        (t : Z) :
  (scheme url <> "https" -> scheme url <> "http" ->
   download url targetPath t
   = (Raise (runtime_error ("Unsupported URL scheme: " ++ scheme url)%string), [])) /\
  (forall client error,
      client_for url = Some client ->
      httpGet client t (request_target url) = HttpError error ->
      exists what,
        download url targetPath t
        = (Raise (runtime_error what), [Request GET client t (request_target url)])) /\
  (file_effects (snd (download url targetPath t)) <> [] ->
   exists client body header,
     client_for url = Some client /\
     httpGet client t (request_target url) = HttpResponse 200 body header).
Proof.
  rewrite downloadToFile_unfold. split; [|split].
  - intros H1 H2. unfold client_for.
    apply String.eqb_neq in H1, H2. now rewrite H1, H2.
  - intros client error Hc Hg. rewrite Hc, Hg. eexists. reflexivity.
  - destruct (client_for url) as [client|]; [|cbn; congruence].
    destruct (httpGet _ _ _) as [e|st body hdr] eqn:Hg; [cbn; congruence|].
    destruct (Z.eqb_spec st 200) as [->|Hst]; [|cbn; congruence].
    intros _. exists client, body, hdr. auto.
Qed.

(** X15 (what a successful download did).  When [downloadToFile] returns,
    it sent exactly one GET, the answer had status 200, and it then created
    the parent directories of the target, opened the target and wrote the
    whole body of the answer to it, in this order and nothing else; the
    result names the target, counts the bytes of the body and carries the
    answer's [Content-Type] header if there is one. *)
Theorem download_result_matches_response (url : Url) (targetPath : string)
        (t : Z) (r : DownloadResult) (trace : list Effect) :
  download url targetPath t = (Ok r, trace) ->
  exists client body header,
    client_for url = Some client /\
    httpGet client t (request_target url) = HttpResponse 200 body header /\
    trace = [Request GET client t (request_target url);
             CreateDirectories (parent_path targetPath);
             OpenForWriting targetPath;
             WriteBytes targetPath body] /\
    create_directories_error (parent_path targetPath) = None /\
    opens_for_writing targetPath = true /\
    write_succeeds targetPath body = true /\
    localPath r = targetPath /\
    bytesDownloaded r = length body /\
    contentType r = header "Content-Type".
Proof.
  rewrite downloadToFile_unfold. intros H.
  destruct (client_for url) as [client|]; [|discriminate].
  destruct (httpGet _ _ _) as [e|st body hdr] eqn:Hg; [discriminate|].
  destruct (Z.eqb_spec st 200) as [->|Hst]; [|discriminate].
  cbn [negb] in H.
  destruct (create_directories_error _) eqn:Hc; [discriminate|].
  destruct (opens_for_writing _) eqn:Ho; [|discriminate].
  destruct (write_succeeds _ _) eqn:Hw; [|discriminate].
  cbn [negb] in H. inversion H; subst.
  exists client, body, hdr. repeat split; auto.
Qed.

End DownloaderProperties.

(** * Concrete runs *)

Module ToyFacts.

Lemma bounded : codec_bounded Toy.decompressStream.
Proof.
  intros ctx space src ctx' produced consumed H.
  unfold Toy.decompressStream in H.
  destruct src as [|b src]; [inversion H; subst; simpl; lia|].
  destruct b; try discriminate;
    try (inversion H; subst; simpl; lia);
    destruct space; inversion H; subst; simpl; lia.
Qed.

Lemma progress : codec_progress Toy.decompressStream.
Proof.
  intros ctx space src ctx' produced consumed Hsrc Hspace H.
  unfold Toy.decompressStream in H.
  destruct src as [|b src]; [congruence|].
  destruct b; try discriminate;
    try (inversion H; subst; simpl; lia);
    destruct space; try lia; inversion H; subst; simpl; lia.
Qed.

End ToyFacts.


(** ** The scenario of the specification *)

(** C1, the concrete scenario: ["HelloWorld"], uncompressed, capacity 4. *)
Lemma uncompressed_round_trip_HelloWorld :
  exists s1 s2,
    Toy.open 0 0 Toy.HelloWorld (FileSource_new Toy.DCtx "in.bin" "none")
    = (Returns tt, s1) /\
    Toy.drain 11 4 s1
    = (Returns [(withBytes 4, Toy.bytes "Hell");
                (withBytes 4, Toy.bytes "oWor");
                (withBytes 2, Toy.bytes "ld");
                (eos, [])], s2) /\
    totalNumBytesRead s2 = 10.
Proof.
  destruct (uncompressed_round_trip Toy.DCtx Toy.decompressStream (Some tt) 0 0
              Toy.realpath (Toy.readable Toy.HelloWorld) Toy.errno_text
              (FileSource_new Toy.DCtx "in.bin" "none") "/data/in.bin"
              Toy.HelloWorld 4)
    as (s1 & s2 & rs & Ho & Hd & Hrs & _ & _ & Ht).
  - lia.
  - reflexivity.
  - reflexivity.
  - left; reflexivity.
  - exists s1, s2. split; [exact Ho|]. split; [|exact Ht].
    subst rs. exact Hd.
Defined.

(** ** Where the code departs from the specification *)

(** C2 (maximal fill) fails on a chunk that decodes to no output.  With an
    input staging buffer of one byte and the content [x00 "A" "B"], the
    first chunk is framing only: the first call returns [eos] although
    [endOfCompressedStream] is not set and ["AB"] is still unread, and the
    next call returns 2 bytes.  With the content ["A" x00 "B"] the
    first call returns 1 byte into a destination of capacity 4 although
    ["B"] is still unread. *)
Theorem zero_output_chunk_ends_fill_early :
  (let s := Toy.zstd_source 1 4 (x00 :: Toy.bytes "AB") in
   let s' := Toy.after s (Toy.buffer 4) in
   fst (fst (Toy.fillTupleBuffer s (Toy.buffer 4))) = Returns eos /\
   endOfCompressedStream s' = false /\
   rest (inputFile s') = Toy.bytes "AB" /\
   fst (fst (Toy.fillTupleBuffer s' (Toy.buffer 4))) = Returns (withBytes 2))
  /\
  (let s := Toy.zstd_source 1 4 (Toy.bytes "A" ++ x00 :: Toy.bytes "B") in
   let s' := Toy.after s (Toy.buffer 4) in
   fst (fst (Toy.fillTupleBuffer s (Toy.buffer 4))) = Returns (withBytes 1) /\
   endOfCompressedStream s' = false /\
   rest (inputFile s') = Toy.bytes "B" /\
   fst (fst (Toy.fillTupleBuffer s' (Toy.buffer 4))) = Returns (withBytes 1)).
Proof.
  vm_compute. repeat split.
Qed.

(** C3 as stated fails: on an uncompressed source that still holds ["ab"],
    a call with an empty destination returns [eos] and the call after it
    returns a byte. *)
Lemma eos_not_stable_after_empty_destination :
  let s := Toy.raw_source (Toy.bytes "ab") in
  Toy.fillTupleBuffer s (Toy.buffer 0) = (Returns eos, s, Toy.buffer 0) /\
  fst (fst (Toy.fillTupleBuffer s (Toy.buffer 1))) = Returns (withBytes 1) /\
  fst (Toy.fillAll s [Toy.buffer 0; Toy.buffer 1])
  = [Returns eos; Returns (withBytes 1)].
Proof.
  vm_compute. repeat split.
Qed.

(** C5 as stated fails: with the unsupported type ["gzip"] and a file that
    opens, the failed [open] leaves the stream open; with a file that does
    not open, the error is the one about the path and does not name the
    unsupported value. *)
Lemma open_unsupported_leaves_stream_open :
  (let r := Toy.open 0 0 Toy.HelloWorld (FileSource_new Toy.DCtx "in.bin" "gzip") in
   fst r = Throws (InvalidConfigParameter "Unsupported compression type: gzip") /\
   is_open (inputFile (snd r)) = true)
  /\
  (let r := Toy.open 0 0 Toy.HelloWorld (FileSource_new Toy.DCtx "nope.bin" "gzip") in
   fst r = Throws (InvalidConfigParameter
                     "Could not determine absolute pathname: nope.bin - No such file or directory")).
Proof.
  vm_compute. repeat split.
Qed.

(** C6 as stated fails: a path that does not resolve makes [open] throw a
    configuration error, not an I/O error. *)
Lemma open_failure_is_not_io_error :
  exists e s',
    Toy.open 0 0 Toy.HelloWorld (FileSource_new Toy.DCtx "nope.bin" "none")
    = (Throws e, s') /\
    errorKind e = ConfigurationError /\
    errorKind e <> IOError.
Proof.
  eexists _, _. split; [vm_compute; reflexivity|].
  split; [reflexivity | discriminate].
Qed.

(** C8 as stated fails after a call that throws.  With staging buffers of
    6 and 8 bytes and the content ["ABCDEFG"] followed by the corrupt byte
    [xff], the first call delivers 6 bytes and leaves both cursors at 6.
    The second call reads ["G"] and the corrupt byte: the write cursor is
    reset, ["G"] is decoded, the codec fails, and the call throws before
    the read cursor is reset: read cursor 6, write cursor 1.  The next call
    returns [eos] and leaves them so.  [decompressNextBlock] called
    directly does the same. *)
Lemma cursor_order_lost_after_codec_error :
  let content := Toy.bytes "ABCDEFG" ++ [xff] in
  let s0 := Toy.zstd_source 6 8 content in
  let s1 := Toy.after s0 (Toy.buffer 6) in
  let s2 := Toy.after s1 (Toy.buffer 6) in
  let s3 := Toy.after s2 (Toy.buffer 6) in
  let d2 := snd (Toy.decompressNextBlock s1) in
  let error :=
    InvalidConfigParameter "ZSTD decompression error: Unknown frame descriptor" in
  Toy.open 6 8 content (FileSource_new Toy.DCtx "in.bin" "zstd")
  = (Returns tt, s0) /\
  fst (fst (Toy.fillTupleBuffer s0 (Toy.buffer 6))) = Returns (withBytes 6) /\
  (decompressedOffset s1 = 6 /\ decompressedSize s1 = 6) /\
  fst (fst (Toy.fillTupleBuffer s1 (Toy.buffer 6))) = Throws error /\
  (decompressedOffset s2 = 6 /\ decompressedSize s2 = 1) /\
  ~ decompressedOffset s2 <= decompressedSize s2 /\
  fst (fst (Toy.fillTupleBuffer s2 (Toy.buffer 6))) = Returns eos /\
  ~ decompressedOffset s3 <= decompressedSize s3 /\
  fst (Toy.decompressNextBlock s1) = Throws error /\
  ~ decompressedOffset d2 <= decompressedSize d2.
Proof.
  vm_compute. repeat split; lia.
Qed.

(** ** Instances *)

Lemma eos_is_stable_witness :
  let s1 := Toy.after (Toy.zstd_source 4 4 (Toy.bytes "AB")) (Toy.buffer 4) in
  let s2 := Toy.after s1 (Toy.buffer 4) in
  1 <= getBufferSize (Toy.buffer 4) /\
  Toy.fillAll s2 [Toy.buffer 0; Toy.buffer 3; Toy.buffer 4]
  = ([Returns eos; Returns eos; Returns eos], s2).
Proof.
  intros s1 s2. split; [vm_compute; lia|].
  apply (eos_is_stable Toy.DCtx Toy.decompressStream s1 s2 (Toy.buffer 4)
           (snd (Toy.fillTupleBuffer s1 (Toy.buffer 4)))
           [Toy.buffer 0; Toy.buffer 3; Toy.buffer 4]).
  - vm_compute; lia.
  - vm_compute; reflexivity.
  - intros _. vm_compute; reflexivity.
Defined.

Lemma no_empty_result_witness :
  let s := Toy.zstd_source 4 4 (Toy.bytes "AB") in
  withBytes 2 <> withBytes 0 /\
  (withBytes 2 = eos <->
   totalNumBytesRead (Toy.after s (Toy.buffer 4)) = totalNumBytesRead s).
Proof.
  intros s.
  assert (Hctx : zstd_mode s -> zstdContext s <> None)
    by (intros _; discriminate).
  assert (Hf : fillTupleBuffer Toy.decompressStream s (Toy.buffer 4)
               = (Returns (withBytes 2), Toy.after s (Toy.buffer 4),
                  snd (Toy.fillTupleBuffer s (Toy.buffer 4))))
    by (vm_compute; reflexivity).
  exact (proj1 (no_empty_result Toy.DCtx Toy.decompressStream
                  ToyFacts.bounded ToyFacts.progress s (Toy.buffer 4) Hctx)
           (withBytes 2) (Toy.after s (Toy.buffer 4))
           (snd (Toy.fillTupleBuffer s (Toy.buffer 4))) Hf).
Defined.

Lemma open_rejects_unsupported_witness :
  exists e s',
    Toy.open 0 0 Toy.HelloWorld (FileSource_new Toy.DCtx "in.bin" "gzip")
    = (Throws e, s') /\
    errorKind e = ConfigurationError /\
    what e = "Unsupported compression type: gzip" /\
    zstdContext s' = None /\
    inputFile s' = mkIfstream true Toy.HelloWorld false.
Proof.
  apply (open_rejects_unsupported Toy.DCtx (Some tt) 0 0 Toy.realpath
           (Toy.readable Toy.HelloWorld) Toy.errno_text
           (FileSource_new Toy.DCtx "in.bin" "gzip") "/data/in.bin"
           Toy.HelloWorld).
  - reflexivity.
  - reflexivity.
  - discriminate.
  - discriminate.
  - discriminate.
Defined.

Lemma open_failure_witness :
  exists e s',
    Toy.open 0 0 Toy.HelloWorld (FileSource_new Toy.DCtx "nope.bin" "none")
    = (Throws e, s') /\
    errorKind e = ConfigurationError /\
    what e = "Could not determine absolute pathname: nope.bin - No such file or directory" /\
    is_open (inputFile s') = false.
Proof.
  apply (open_failure_is_configuration_error Toy.DCtx (Some tt) 0 0 Toy.realpath
           (Toy.readable Toy.HelloWorld) Toy.errno_text
           (FileSource_new Toy.DCtx "nope.bin" "none")).
  left. reflexivity.
Defined.

Lemma decompressNextBlock_contract_witness :
  let s := Toy.zstd_source 4 4 (Toy.bytes "AB") in
  let s' := snd (Toy.decompressNextBlock s) in
  let bad := Toy.zstd_source 4 4 (Toy.bytes "A" ++ [xff]) in
  (decompressedOffset s' = 0 /\ true = (0 <? decompressedSize s')) /\
  (exists s2,
      Toy.decompressNextBlock s = (Returns true, s2) /\
      decompressedSize s2 = 2 /\
      staged s2 = Toy.bytes "AB") /\
  (exists s2,
      Toy.decompressNextBlock bad
      = (Throws (InvalidConfigParameter
                   "ZSTD decompression error: Unknown frame descriptor"), s2) /\
      decompressedOffset s2 = decompressedOffset bad).
Proof.
  intros s s' bad.
  destruct (decompressNextBlock_contract Toy.DCtx Toy.decompressStream s)
    as (_ & _ & H3 & H5).
  assert (He : endOfCompressedStream s = false) by reflexivity.
  assert (Hread : ifstream_read (inputFile s) (length (compressedBuffer s))
                  = (Toy.bytes "AB",
                     snd (ifstream_read (inputFile s)
                            (length (compressedBuffer s)))))
    by (vm_compute; reflexivity).
  assert (Hne : Toy.bytes "AB" <> []) by discriminate.
  assert (Hctx : zstdContext s = Some tt) by reflexivity.
  split; [|split].
  - destruct (H3 He _ _ Hread Hne) as [_ H4].
    assert (Hd : decompressNextBlock Toy.decompressStream s = (Returns true, s'))
      by (vm_compute; reflexivity).
    destruct (H4 true s' Hd) as (_ & _ & Hoff & Hb).
    split; assumption.
  - pose proof (H5 He _ _ tt Hread Hne Hctx ToyFacts.bounded) as H6.
    cbv zeta in H6. destruct H6 as (_ & Hfed & _).
    assert (Hf : feedCodec Toy.decompressStream
                   (length (Toy.bytes "AB") + length (decompressedBuffer s) + 1)
                   (length (decompressedBuffer s)) tt (Toy.bytes "AB") []
                 = FedAll tt (Toy.bytes "AB"))
      by (vm_compute; reflexivity).
    destruct (Hfed tt (Toy.bytes "AB") Hf)
      as (_ & s2 & Hd & _ & _ & Hsz & Hst & _).
    exists s2. split; [exact Hd|]. split; [exact Hsz | exact Hst].
  - destruct (decompressNextBlock_contract Toy.DCtx Toy.decompressStream bad)
      as (_ & _ & _ & H7).
    assert (Heb : endOfCompressedStream bad = false) by reflexivity.
    assert (Hrb : ifstream_read (inputFile bad) (length (compressedBuffer bad))
                  = (Toy.bytes "A" ++ [xff],
                     snd (ifstream_read (inputFile bad)
                            (length (compressedBuffer bad)))))
      by (vm_compute; reflexivity).
    assert (Hnb : Toy.bytes "A" ++ [xff] <> []) by discriminate.
    assert (Hcb : zstdContext bad = Some tt) by reflexivity.
    pose proof (H7 Heb _ _ tt Hrb Hnb Hcb ToyFacts.bounded) as H8.
    cbv zeta in H8. destruct H8 as (_ & _ & Herr).
    assert (Hf : feedCodec Toy.decompressStream
                   (length (Toy.bytes "A" ++ [xff])
                    + length (decompressedBuffer bad) + 1)
                   (length (decompressedBuffer bad)) tt
                   (Toy.bytes "A" ++ [xff]) []
                 = CodecError "Unknown frame descriptor")
      by (vm_compute; reflexivity).
    destruct (Herr "Unknown frame descriptor" Hf) as (s2 & Hd & Hoff & _).
    exists s2. split; [exact Hd | exact Hoff].
Defined.

Lemma cursor_invariant_witness :
  let s := Toy.after (Toy.zstd_source 4 4 (Toy.bytes "ABCDEF")) (Toy.buffer 3) in
  let content := Toy.bytes "ABCDEFG" ++ [xff] in
  let t0 := Toy.zstd_source 6 8 content in
  let t1 := Toy.after t0 (Toy.buffer 6) in
  let t2 := Toy.after t1 (Toy.buffer 6) in
  ((decompressedOffset s <= decompressedSize s /\
    decompressedSize s <= length (decompressedBuffer s)) /\
   length (decompressedBuffer s) = 4) /\
  (fst (fst (Toy.fillTupleBuffer t1 (Toy.buffer 6)))
   = Throws (InvalidConfigParameter
               "ZSTD decompression error: Unknown frame descriptor") /\
   decompressedSize t2 <= length (decompressedBuffer t2) /\
   length (decompressedBuffer t2) = 8).
Proof.
  intros s content t0 t1 t2. split.
  - assert (Hr : reachable Toy.decompressStream (Some tt) 4 4 Toy.realpath
                   (Toy.readable (Toy.bytes "ABCDEF")) Toy.errno_text s).
    { apply (reach_fill _ _ _ _ _ _ _
               (Toy.zstd_source 4 4 (Toy.bytes "ABCDEF")) s (Toy.buffer 3)
               (snd (Toy.fillTupleBuffer
                       (Toy.zstd_source 4 4 (Toy.bytes "ABCDEF")) (Toy.buffer 3)))
               (withBytes 3)).
      - apply (reach_open _ _ _ _ _ _ _
                 (FileSource_new Toy.DCtx "in.bin" "zstd"));
          vm_compute; reflexivity.
      - vm_compute; reflexivity. }
    destruct (proj1 (cursor_invariant Toy.DCtx Toy.decompressStream (Some tt) 4 4
                       Toy.realpath (Toy.readable (Toy.bytes "ABCDEF"))
                       Toy.errno_text ToyFacts.bounded s) Hr)
      as (Hc & Hl & _).
    split; assumption.
  - assert (Hthrow : fillTupleBuffer Toy.decompressStream t1 (Toy.buffer 6)
                     = (Throws (InvalidConfigParameter
                                  "ZSTD decompression error: Unknown frame descriptor"),
                        t2, snd (Toy.fillTupleBuffer t1 (Toy.buffer 6))))
      by (vm_compute; reflexivity).
    assert (Hs : session Toy.decompressStream (Some tt) 6 8 Toy.realpath
                   (Toy.readable content) Toy.errno_text t2).
    { apply (session_fill _ _ _ _ _ _ _ t1 t2 (Toy.buffer 6)
               (snd (Toy.fillTupleBuffer t1 (Toy.buffer 6)))
               (Throws (InvalidConfigParameter
                          "ZSTD decompression error: Unknown frame descriptor")));
        [|exact Hthrow].
      apply (session_fill _ _ _ _ _ _ _ t0 t1 (Toy.buffer 6)
               (snd (Toy.fillTupleBuffer t0 (Toy.buffer 6)))
               (Returns (withBytes 6)));
        [|vm_compute; reflexivity].
      apply (session_open _ _ _ _ _ _ _
               (FileSource_new Toy.DCtx "in.bin" "zstd"));
        vm_compute; reflexivity. }
    destruct (proj2 (cursor_invariant Toy.DCtx Toy.decompressStream (Some tt) 6 8
                       Toy.realpath (Toy.readable content)
                       Toy.errno_text ToyFacts.bounded t2) Hs)
      as (Hle & Hlen & _).
    split; [|split; assumption].
    vm_compute; reflexivity.
Defined.

Lemma byte_counter_witness :
  let s := Toy.zstd_source 4 4 (Toy.bytes "ABCDEF") in
  totalNumBytesRead (Toy.after s (Toy.buffer 3)) = totalNumBytesRead s + 3.
Proof.
  intros s.
  assert (Hf : fillTupleBuffer Toy.decompressStream s (Toy.buffer 3)
               = (Returns (withBytes 3), Toy.after s (Toy.buffer 3),
                  snd (Toy.fillTupleBuffer s (Toy.buffer 3))))
    by (vm_compute; reflexivity).
  exact (proj1 (byte_counter_correct Toy.DCtx Toy.decompressStream)
           s (Toy.after s (Toy.buffer 3)) (Toy.buffer 3)
           (snd (Toy.fillTupleBuffer s (Toy.buffer 3))) (withBytes 3) Hf).
Defined.

Lemma zero_capacity_witness :
  let s := Toy.raw_source Toy.HelloWorld in
  getBufferSize (Toy.buffer 0) = 0 /\
  Toy.fillTupleBuffer s (Toy.buffer 0) = (Returns eos, s, Toy.buffer 0).
Proof.
  intros s. split; [reflexivity|].
  apply (zero_capacity_returns_eos Toy.DCtx Toy.decompressStream
           s (Toy.buffer 0)).
  reflexivity.
Defined.

Lemma fill_conserves_stream_witness :
  let s := Toy.zstd_source 2 2 (Toy.bytes "ABCDE") in
  let s' := Toy.after s (Toy.buffer 3) in
  exists out',
    upcoming Toy.decompressStream 4 s' = Some out' /\
    staged s ++ Toy.bytes "ABCDE"
    = delivered (withBytes 3) (snd (Toy.fillTupleBuffer s (Toy.buffer 3)))
      ++ staged s' ++ out'.
Proof.
  intros s s'.
  assert (Hz : zstd_mode s) by reflexivity.
  assert (Hc : cursors_ok s) by (vm_compute; split; lia).
  assert (Hf : fillTupleBuffer Toy.decompressStream s (Toy.buffer 3)
               = (Returns (withBytes 3), s',
                  snd (Toy.fillTupleBuffer s (Toy.buffer 3))))
    by (vm_compute; reflexivity).
  assert (Hu : upcoming Toy.decompressStream 4 s = Some (Toy.bytes "ABCDE"))
    by (vm_compute; reflexivity).
  exact (fill_conserves_stream Toy.DCtx Toy.decompressStream ToyFacts.bounded
           s s' (Toy.buffer 3) (snd (Toy.fillTupleBuffer s (Toy.buffer 3)))
           (withBytes 3) 4 (Toy.bytes "ABCDE") Hz Hc Hf Hu).
Defined.

Lemma zstd_drain_delivers_decoder_stream_witness :
  let s := Toy.zstd_source 2 2 (Toy.bytes "ABCDE") in
  Toy.drain 3 3 s
  = (Returns [(withBytes 3, Toy.bytes "ABC"); (withBytes 2, Toy.bytes "DE");
              (eos, [])], snd (Toy.drain 3 3 s)) /\
  concat (map snd [(withBytes 3, Toy.bytes "ABC"); (withBytes 2, Toy.bytes "DE");
                   (eos, [])])
  = Toy.bytes "ABCDE".
Proof.
  intros s.
  assert (Hz : zstd_mode (FileSource_new Toy.DCtx "in.bin" "zstd"))
    by reflexivity.
  assert (Ho : open (Some tt) 2 2 Toy.realpath
                 (Toy.readable (Toy.bytes "ABCDE")) Toy.errno_text
                 (FileSource_new Toy.DCtx "in.bin" "zstd") = (Returns tt, s))
    by (vm_compute; reflexivity).
  assert (Hk : 1 <= 3) by lia.
  assert (Hu : upcoming Toy.decompressStream 4 s = Some (Toy.bytes "ABCDE"))
    by (vm_compute; reflexivity).
  assert (Hd : drain Toy.decompressStream 3 3 s
               = (Returns [(withBytes 3, Toy.bytes "ABC");
                           (withBytes 2, Toy.bytes "DE"); (eos, [])],
                  snd (Toy.drain 3 3 s)))
    by (vm_compute; reflexivity).
  assert (He : endOfCompressedStream (snd (Toy.drain 3 3 s)) = true)
    by (vm_compute; reflexivity).
  split; [exact Hd|].
  exact (zstd_drain_delivers_decoder_stream Toy.DCtx Toy.decompressStream
           (Some tt) 2 2 Toy.realpath (Toy.readable (Toy.bytes "ABCDE"))
           Toy.errno_text ToyFacts.bounded
           (FileSource_new Toy.DCtx "in.bin" "zstd") s (snd (Toy.drain 3 3 s))
           3 3 4 _ (Toy.bytes "ABCDE") Hz Ho Hk Hu Hd He).
Defined.

Lemma short_fill_cause_witness :
  let s := Toy.zstd_source 4 4 (Toy.bytes "AB") in
  let s' := Toy.after s (Toy.buffer 4) in
  numBytes (withBytes 2) < getBufferSize (Toy.buffer 4) /\
  (endOfCompressedStream s' = true
   \/ (decompressedSize s' = 0 /\ decompressedOffset s' = 0)).
Proof.
  intros s s'.
  assert (Hz : zstd_mode s) by reflexivity.
  assert (Hf : fillTupleBuffer Toy.decompressStream s (Toy.buffer 4)
               = (Returns (withBytes 2), s',
                  snd (Toy.fillTupleBuffer s (Toy.buffer 4))))
    by (vm_compute; reflexivity).
  assert (Hlt : numBytes (withBytes 2) < getBufferSize (Toy.buffer 4))
    by (vm_compute; lia).
  split; [exact Hlt|].
  exact (short_fill_cause Toy.DCtx Toy.decompressStream s s' (Toy.buffer 4)
           (snd (Toy.fillTupleBuffer s (Toy.buffer 4))) (withBytes 2)
           Hz Hf Hlt).
Defined.

Lemma raw_fill_is_maximal_witness :
  let s := Toy.raw_source Toy.HelloWorld in
  let s' := Toy.after s (Toy.buffer 16) in
  let b' := snd (Toy.fillTupleBuffer s (Toy.buffer 16)) in
  delivered (withBytes 10) b' ++ rest (inputFile s') = rest (inputFile s) /\
  (numBytes (withBytes 10) < getBufferSize (Toy.buffer 16) ->
   rest (inputFile s') = [] /\ failbit (inputFile s') = true) /\
  (failbit (inputFile s') = true -> rest (inputFile s') = []).
Proof.
  intros s s' b'.
  assert (Hz : ~ zstd_mode s) by discriminate.
  assert (Hs : failbit (inputFile s) = true -> rest (inputFile s) = [])
    by discriminate.
  assert (Hf : fillTupleBuffer Toy.decompressStream s (Toy.buffer 16)
               = (Returns (withBytes 10), s', b'))
    by (vm_compute; reflexivity).
  exact (raw_fill_is_maximal Toy.DCtx Toy.decompressStream s s' (Toy.buffer 16)
           b' (withBytes 10) Hz Hs Hf).
Defined.

Lemma fill_writes_only_the_delivered_prefix_witness :
  let s := Toy.zstd_source 4 4 (Toy.bytes "AB") in
  let b := mkTupleBuffer (Toy.bytes "wxyz") in
  let b' := snd (Toy.fillTupleBuffer s b) in
  getBufferSize b' = getBufferSize b /\
  numBytes (withBytes 2) <= getBufferSize b /\
  skipn (numBytes (withBytes 2)) (memoryArea b')
  = skipn (numBytes (withBytes 2)) (memoryArea b).
Proof.
  intros s b b'.
  assert (Hf : fillTupleBuffer Toy.decompressStream s b
               = (Returns (withBytes 2), Toy.after s b, b'))
    by (vm_compute; reflexivity).
  exact (fill_writes_only_the_delivered_prefix Toy.DCtx Toy.decompressStream
           s (Toy.after s b) b b' (withBytes 2) Hf).
Defined.

Lemma registrars_agree_witness :
  match RegisterFileFileData "file_path"
          (mkFileDataRegistryArguments Sample.config "/tmp/inline.csv"),
        fst (RegisterFileInlineData "file_path" Sample.directory
               (mkInlineDataRegistryArguments Sample.config "/tmp/inline.csv"
                  ["1,2"; "3,4"])) with
  | RegisteredAs c1, RegisteredAs c2 =>
      c1 = c2 /\ sourceConfig Sample.config "file_path" = None
  | RejectedConfig _, RejectedConfig _ =>
      sourceConfig Sample.config "file_path" <> None
  | _, _ => False
  end.
Proof.
  assert (Hc : creatable Sample.directory "/tmp/inline.csv" = true)
    by reflexivity.
  exact (registrars_agree "file_path" unit Sample.directory Sample.config
           "/tmp/inline.csv" ["1,2"; "3,4"] Hc).
Defined.

Lemma inline_data_round_trip_witness :
  let path := "/tmp/inline.csv" in
  let content := tuple_lines ["1,2"; "3,4"] in
  exists config' fs' s1 s2 rs,
    RegisterFileInlineData "file_path" Sample.directory Sample.inline_data
    = (RegisteredAs config', fs') /\
    sourceConfig config' "file_path" = Some path /\
    open None 0 0 (fun p => Some p) (files fs') Toy.errno_text
      (FileSource_new Toy.DCtx path "none") = (Returns tt, s1) /\
    drain Toy.decompressStream (S (length content)) 4 s1
    = (Returns (rs ++ [(eos, [])]), s2) /\
    Forall (fun r => fst r <> eos) rs /\
    concat (map snd rs) = content.
Proof.
  assert (Hk : 1 <= 4) by lia.
  assert (Ha : sourceConfig (inlinePhysicalSourceConfig Sample.inline_data)
                 "file_path" = None) by reflexivity.
  assert (Hc : creatable Sample.directory
                 (inlineTestFilePath Sample.inline_data) = true)
    by reflexivity.
  assert (Hr : (fun p : string => Some p)
                 (inlineTestFilePath Sample.inline_data)
               = Some (inlineTestFilePath Sample.inline_data))
    by reflexivity.
  exact (inline_data_round_trip "file_path" unit Toy.DCtx Toy.decompressStream
           None 0 0 (fun p => Some p) Toy.errno_text Sample.directory
           Sample.inline_data 4 Hk Ha Hc Hr).
Defined.

Lemma download_result_matches_response_witness :
  let download :=
    URLDownloader.downloadToFile Sample.httpGet Sample.parent_path
      (fun _ => None) (fun _ => true) (fun _ _ => true) (fun _ => "404") in
  let client := URLDownloader.mkClient false "example.org" 80 in
  let r := URLDownloader.mkDownloadResult "/tmp/data.csv" 3 (Some "text/csv") in
  download Sample.data_csv "/tmp/data.csv" 60%Z
  = (URLDownloader.Ok r,
     [URLDownloader.Request URLDownloader.GET client 60%Z "/data.csv";
      URLDownloader.CreateDirectories "/tmp";
      URLDownloader.OpenForWriting "/tmp/data.csv";
      URLDownloader.WriteBytes "/tmp/data.csv" (list_byte_of_string "1,2")]) /\
  exists client' body header,
    URLDownloader.client_for Sample.data_csv = Some client' /\
    Sample.httpGet client' 60%Z (URLDownloader.request_target Sample.data_csv)
    = URLDownloader.HttpResponse 200 body header /\
    URLDownloader.bytesDownloaded r = length body /\
    URLDownloader.contentType r = header "Content-Type".
Proof.
  intros download client r.
  assert (Hd : download Sample.data_csv "/tmp/data.csv" 60%Z
               = (URLDownloader.Ok r,
                  [URLDownloader.Request URLDownloader.GET client 60%Z "/data.csv";
                   URLDownloader.CreateDirectories "/tmp";
                   URLDownloader.OpenForWriting "/tmp/data.csv";
                   URLDownloader.WriteBytes "/tmp/data.csv"
                     (list_byte_of_string "1,2")]))
    by (vm_compute; reflexivity).
  split; [exact Hd|].
  destruct (download_result_matches_response Sample.httpGet Sample.parent_path
              (fun _ => None) (fun _ => true) (fun _ _ => true) (fun _ => "404")
              Sample.data_csv "/tmp/data.csv" 60%Z r _ Hd)
    as (client' & body & header & Hc & Hg & _ & _ & _ & _ & _ & Hn & Ht).
  exists client', body, header.
  split; [exact Hc|]. split; [exact Hg|]. split; [exact Hn | exact Ht].
Defined.
